(** * Cable sizing (IS 7098 Part 1, XLPE armoured cables)

    A shallow embedding of [calculate_current] and [select_cable] from
    [cable_app.py], with the four static tables they read.

    Numbers. Python numbers are embedded through an arithmetic interface,
    [Number]: the two functions are written once against it and read at
    two instances.

    [binary64] is IEEE double precision on the kernel's primitive floats,
    the arithmetic Python runs. What a call returns, the size selected,
    the figures of the record, the current computed, is stated and proved
    there, with every product, quotient, comparison and rounding as the
    code evaluates it. The [int] literals of the tables and the [float]
    ones share the one numeric type (an [int] operand of a mixed operation
    is converted to [float], exactly at these magnitudes); the numeric
    arguments are floats, so the [OverflowError] of an [int] too large
    for a float has no counterpart.

    [Q_number] is exact rational arithmetic. It is not the arithmetic of
    the code: at a rounding boundary the exact run takes another branch
    or returns another figure than the float run (83 A over 140 m with a
    limit of 3.5 %: 35 sq mm exactly, 50 sq mm in binary64; 39.1 HP at
    230 V and 0.8: 158.52 A exactly, 158.53 A in binary64). It is the
    reading of the statements that a rounding does not change: the
    checks of the inputs, the tables, the division by a length of zero,
    the order between the results of two calls, and the order between a
    figure of the record and an input given in hundredths.

    Exceptions are values of an error monad: [ValueError] with its
    message, [ZeroDivisionError] for a division by zero, [KeyError] for a
    missing dict key.

    Strings are strings of 8-bit characters, and [upper] and [lower] are
    [str.upper] and [str.lower] on ASCII strings. (Python also maps a few
    letters outside ASCII to ASCII ones: U+0131 upper-cases to I. None of
    them makes CU, AL or a method key, so the checks of [select_cable]
    accept the same strings under both; a statement that compares a call
    with the call on the upper-cased strings is made of ASCII strings
    only, see [is_ascii].) The status f-string keeps the interpolated
    number as a number. The default [voltage=415] of [select_cable] is
    passed explicitly. *)

From Stdlib Require Import ZArith QArith Qround Qpower String Ascii List Bool Lia Lqa Sorted.
From Stdlib Require PrimFloat FloatOps SpecFloat FloatAxioms.
Import ListNotations.

Local Open Scope string_scope.

(** ** Exceptions and the error monad *)

Inductive exn : Type :=
| ValueError (msg : string)
| ZeroDivisionError
| KeyError.

Inductive result (A : Type) : Type :=
| Return (a : A)
| Raise (e : exn).
Arguments Return {A} a.
Arguments Raise {A} e.

Definition bind {A B : Type} (r : result A) (k : A -> result B) : result B :=
  match r with
  | Return a => k a
  | Raise e => Raise e
  end.

Notation "x <- r ;; k" := (bind r (fun x => k))
  (at level 61, r at next level, right associativity).

(** ** The arithmetic interface

    [lit q] is the value of the numeric literal written [q] in the source
    (an [int] literal or a decimal [float] literal); [quot] is the quotient
    of [/] for a non-zero divisor; [round x n] is the builtin
    [round(x, n)]. *)

Class Number (F : Type) : Type := {
  lit : Q -> F;
  mul : F -> F -> F;
  quot : F -> F -> F;
  ltb : F -> F -> bool;
  leb : F -> F -> bool;
  eqb : F -> F -> bool;
  round : F -> Z -> F
}.
Arguments lit {F _} q%_Q.

(** [math.sqrt], the one function of the [math] module the program calls. *)
Class MathSqrt (F : Type) : Type := {
  math_sqrt : F -> F
}.

Section Engine.

Context {F : Type} {num : Number F}.

(** [x >= y] *)
Definition geb (x y : F) : bool := leb y x.

(** [x / y]: Python raises [ZeroDivisionError] on a zero divisor. *)
Definition truediv (x y : F) : result F :=
  if eqb y (lit 0) then Raise ZeroDivisionError else Return (quot x y).

(** ** Dictionaries

    A dict literal is the list of its items in the order written; [d[k]]
    raises [KeyError] on a missing key. *)

Fixpoint lookup {K V : Type} (same : K -> K -> bool) (d : list (K * V)) (k : K)
  : option V :=
  match d with
  | [] => None
  | (k', v) :: d' => if same k' k then Some v else lookup same d' k
  end.

Definition getitem {K V : Type} (same : K -> K -> bool) (d : list (K * V)) (k : K)
  : result V :=
  match lookup same d k with
  | Some v => Return v
  | None => Raise KeyError
  end.

Definition keys {K V : Type} (d : list (K * V)) : list K := map fst d.

(** [sorted(xs)]: a stable sort that compares with [<] only. *)
Fixpoint insert_sorted (x : F) (l : list F) : list F :=
  match l with
  | [] => [x]
  | y :: l' => if ltb y x then y :: insert_sorted x l' else x :: y :: l'
  end.

Definition sorted (l : list F) : list F := fold_right insert_sorted [] l.

(** ** The static tables *)

Definition ratings (g f p : Q) : list (string * F) :=
  [("ground", lit g); ("free_air", lit f); ("pipe_duct", lit p)].

(** Current rating (Amps) for copper cables. *)
Definition COPPER_CURRENT_RATINGS : list (F * list (string * F)) :=
  [ (lit 1.5, ratings 17 24 15);
    (lit 2.5, ratings 27 38 24);
    (lit 4, ratings 36 51 32);
    (lit 6, ratings 46 65 41);
    (lit 10, ratings 63 89 56);
    (lit 16, ratings 85 119 76);
    (lit 25, ratings 111 155 100);
    (lit 35, ratings 135 188 122);
    (lit 50, ratings 163 227 148);
    (lit 70, ratings 203 284 184);
    (lit 95, ratings 244 340 221);
    (lit 120, ratings 280 390 254);
    (lit 150, ratings 315 438 286);
    (lit 185, ratings 353 492 320);
    (lit 240, ratings 406 565 368);
    (lit 300, ratings 456 635 414);
    (lit 400, ratings 545 760 496) ].

(** Current rating (Amps) for aluminium cables. *)
Definition ALUMINIUM_CURRENT_RATINGS : list (F * list (string * F)) :=
  [ (lit 1.5, ratings 13 18 11);
    (lit 2.5, ratings 20 28 18);
    (lit 4, ratings 27 38 24);
    (lit 6, ratings 34 48 30);
    (lit 10, ratings 46 65 41);
    (lit 16, ratings 63 88 57);
    (lit 25, ratings 82 114 73);
    (lit 35, ratings 100 139 90);
    (lit 50, ratings 121 169 109);
    (lit 70, ratings 151 211 136);
    (lit 95, ratings 182 254 163);
    (lit 120, ratings 209 292 188);
    (lit 150, ratings 234 327 210);
    (lit 185, ratings 263 368 236);
    (lit 240, ratings 303 424 272);
    (lit 300, ratings 340 475 305);
    (lit 400, ratings 408 570 366) ].

(** Voltage drop factors (mV/A/m) for copper cables. *)
Definition COPPER_VOLTAGE_DROP_FACTORS : list (F * F) :=
  [ (lit 1.5, lit 29.50);
    (lit 2.5, lit 17.80);
    (lit 4, lit 11.00);
    (lit 6, lit 7.41);
    (lit 10, lit 4.40);
    (lit 16, lit 2.75);
    (lit 25, lit 1.75);
    (lit 35, lit 1.25);
    (lit 50, lit 0.89);
    (lit 70, lit 0.63);
    (lit 95, lit 0.47);
    (lit 120, lit 0.37);
    (lit 150, lit 0.30);
    (lit 185, lit 0.24);
    (lit 240, lit 0.18);
    (lit 300, lit 0.15);
    (lit 400, lit 0.11) ].

(** Voltage drop factors (mV/A/m) for aluminium cables. *)
Definition ALUMINIUM_VOLTAGE_DROP_FACTORS : list (F * F) :=
  [ (lit 1.5, lit 47.20);
    (lit 2.5, lit 28.50);
    (lit 4, lit 17.60);
    (lit 6, lit 11.80);
    (lit 10, lit 7.04);
    (lit 16, lit 4.40);
    (lit 25, lit 2.80);
    (lit 35, lit 2.00);
    (lit 50, lit 1.42);
    (lit 70, lit 1.00);
    (lit 95, lit 0.75);
    (lit 120, lit 0.59);
    (lit 150, lit 0.47);
    (lit 185, lit 0.38);
    (lit 240, lit 0.29);
    (lit 300, lit 0.24);
    (lit 400, lit 0.18) ].

(** ** Strings: [str.upper], [str.lower], [x in [...]]

    [upper] and [lower] change the case of the ASCII letters and leave
    every other character as it is: they are [str.upper] and [str.lower]
    on ASCII strings, not on strings with letters outside ASCII (Python
    upper-cases U+0131, the dotless i, to I). *)

Definition upper_char (c : ascii) : ascii :=
  let n := nat_of_ascii c in
  if (97 <=? n)%nat && (n <=? 122)%nat then ascii_of_nat (n - 32) else c.

Definition lower_char (c : ascii) : ascii :=
  let n := nat_of_ascii c in
  if (65 <=? n)%nat && (n <=? 90)%nat then ascii_of_nat (n + 32) else c.

Fixpoint upper (s : string) : string :=
  match s with
  | EmptyString => EmptyString
  | String c s' => String (upper_char c) (upper s')
  end.

Fixpoint lower (s : string) : string :=
  match s with
  | EmptyString => EmptyString
  | String c s' => String (lower_char c) (lower s')
  end.

Definition str_in (s : string) (l : list string) : bool :=
  existsb (String.eqb s) l.

Definition num_in (x : F) (l : list F) : bool :=
  existsb (fun y => eqb x y) l.

(** ** [calculate_current] *)

Definition calculate_current {ms : MathSqrt F}
    (load_value : F) (load_type : string) (voltage power_factor : F) : result F :=
  if negb (str_in load_type ["kW"; "HP"; "Amps"]) then
    Raise (ValueError "load_type must be 'kW', 'HP', or 'Amps'")
  else if negb (num_in voltage [lit 230; lit 415]) then
    Raise (ValueError "voltage must be 230V (single-phase) or 415V (three-phase)")
  else if negb (ltb (lit 0) power_factor && leb power_factor (lit 1)) then
    Raise (ValueError "power_factor must be between 0 and 1")
  else if String.eqb load_type "Amps" then
    Return load_value
  else
    let load_kw :=
      if String.eqb load_type "HP" then mul load_value (lit 0.746) else load_value in
    current <-
      (if eqb voltage (lit 230) then
         truediv (mul load_kw (lit 1000)) (mul voltage power_factor)
       else
         truediv (mul load_kw (lit 1000))
                 (mul (mul (math_sqrt (lit 3)) voltage) power_factor)) ;;
    Return (round current 2).

(** ** [select_cable] *)

(** A piece of an f-string: literal text, or an interpolated number whose
    rendering is left to the reader of the record. *)
Inductive fpart : Type :=
| Text (s : string)
| Interp (x : F).

(** The dict [select_cable] returns; [None] is Python's [None]. *)
Record selection : Type := {
  size : option F;
  actual_capacity : option F;
  voltage_drop : option F;
  voltage_drop_mv : option F;
  status : list fpart
}.

Definition no_suitable_cable (max_voltage_drop_percent : F) : selection :=
  {| size := None;
     actual_capacity := None;
     voltage_drop := None;
     voltage_drop_mv := None;
     status := [Text "No suitable cable found. Max voltage drop of ";
                Interp max_voltage_drop_percent;
                Text "% exceeded."] |}.

(** One turn of the [for size in sorted(current_dict.keys())] loop:
    [Return (Some r)] is the [return r] inside the loop, [Return None]
    falls through to the next size. *)
Definition try_size (current_dict : list (F * list (string * F)))
    (vd_dict : list (F * F)) (method_key : string)
    (calculated_current length derating_factor max_voltage_drop_percent voltage : F)
    (size : F) : result (option selection) :=
  row <- getitem eqb current_dict size ;;
  base_capacity <- getitem String.eqb row method_key ;;
  let derated_capacity := mul base_capacity derating_factor in
  if geb derated_capacity calculated_current then
    vd_factor <- getitem eqb vd_dict size ;;
    let voltage_drop_mv := mul (mul vd_factor calculated_current) length in
    q <- truediv voltage_drop_mv (mul voltage (lit 1000)) ;;
    let voltage_drop_percent := mul q (lit 100) in
    if leb voltage_drop_percent max_voltage_drop_percent then
      per_metre <- truediv voltage_drop_mv length ;;
      Return (Some {| size := Some size;
                      actual_capacity := Some (round derated_capacity 2);
                      voltage_drop := Some (round voltage_drop_percent 2);
                      voltage_drop_mv := Some (round per_metre 3);
                      status := [Text "Selected"] |})
    else Return None
  else Return None.

(** The loop over the sizes still to visit, and the [return] after it. *)
Fixpoint scan_sizes (current_dict : list (F * list (string * F)))
    (vd_dict : list (F * F)) (method_key : string)
    (calculated_current length derating_factor max_voltage_drop_percent voltage : F)
    (sizes : list F) : result selection :=
  match sizes with
  | [] => Return (no_suitable_cable max_voltage_drop_percent)
  | size :: rest =>
    found <- try_size current_dict vd_dict method_key calculated_current length
               derating_factor max_voltage_drop_percent voltage size ;;
    match found with
    | Some r => Return r
    | None =>
      scan_sizes current_dict vd_dict method_key calculated_current length
        derating_factor max_voltage_drop_percent voltage rest
    end
  end.

Definition select_cable (calculated_current : F) (conductor_type installation_method : string)
    (length derating_factor max_voltage_drop_percent voltage : F) : result selection :=
  tables <-
    (if String.eqb (upper conductor_type) "CU" then
       Return (COPPER_CURRENT_RATINGS, COPPER_VOLTAGE_DROP_FACTORS)
     else if String.eqb (upper conductor_type) "AL" then
       Return (ALUMINIUM_CURRENT_RATINGS, ALUMINIUM_VOLTAGE_DROP_FACTORS)
     else Raise (ValueError "conductor_type must be 'Cu' or 'Al'")) ;;
  let '(current_dict, vd_dict) := tables in
  if negb (str_in (lower installation_method) ["ground"; "free_air"; "pipe_duct"]) then
    Raise (ValueError "installation_method must be 'ground', 'free_air', or 'pipe_duct'")
  else
    let method_key := lower installation_method in
    scan_sizes current_dict vd_dict method_key calculated_current length
      derating_factor max_voltage_drop_percent voltage (sorted (keys current_dict)).

(** ** Reading the tables

    The vocabulary the statements below are written in. *)

Inductive material : Type := Copper | Aluminium.

Definition current_ratings (mat : material) : list (F * list (string * F)) :=
  match mat with
  | Copper => COPPER_CURRENT_RATINGS
  | Aluminium => ALUMINIUM_CURRENT_RATINGS
  end.

Definition voltage_drop_factors (mat : material) : list (F * F) :=
  match mat with
  | Copper => COPPER_VOLTAGE_DROP_FACTORS
  | Aluminium => ALUMINIUM_VOLTAGE_DROP_FACTORS
  end.

(** The material a [conductor_type] string selects, if any. *)
Definition material_of (conductor_type : string) : option material :=
  if String.eqb (upper conductor_type) "CU" then Some Copper
  else if String.eqb (upper conductor_type) "AL" then Some Aluminium
  else None.

Definition method_keys : list string := ["ground"; "free_air"; "pipe_duct"].

(** [current_dict[size][method_key]], when both keys are present. *)
Definition base_capacity_at (current_dict : list (F * list (string * F)))
    (method_key : string) (size : F) : option F :=
  match lookup eqb current_dict size with
  | Some row => lookup String.eqb row method_key
  | None => None
  end.

(** The record returned for a size with rating [base] and factor [vd]. *)
Definition selected (size base vd calculated_current length derating_factor voltage : F)
  : selection :=
  {| size := Some size;
     actual_capacity := Some (round (mul base derating_factor) 2);
     voltage_drop :=
       Some (round (mul (quot (mul (mul vd calculated_current) length)
                              (mul voltage (lit 1000))) (lit 100)) 2);
     voltage_drop_mv :=
       Some (round (quot (mul (mul vd calculated_current) length) length) 3);
     status := [Text "Selected"] |}.

End Engine.

(** ** Exact arithmetic: the rationals

    Products and quotients without rounding error, decimal literals with
    their exact value, and no overflow: the arithmetic of the formulas,
    not that of the code, which is [binary64] below. *)

Local Open Scope Q_scope.

(** Nearest integer, ties to the even one (what [round] does with a tie). *)
Definition round_half_even (x : Q) : Z :=
  let f := Qfloor x in
  match Qcompare (x - inject_Z f) (1 # 2) with
  | Lt => f
  | Gt => (f + 1)%Z
  | Eq => if Z.even f then f else (f + 1)%Z
  end.

(** [round(x, n)]: the multiple of [10^-n] nearest to [x]. *)
Definition Qround_digits (x : Q) (n : Z) : Q :=
  inject_Z (round_half_even (x * 10 ^ n)) / 10 ^ n.

Definition Qltb (x y : Q) : bool :=
  match Qcompare x y with Lt => true | _ => false end.

#[export] Instance Q_number : Number Q := {
  lit q := q;
  mul := Qmult;
  quot := Qdiv;
  ltb := Qltb;
  leb := Qle_bool;
  eqb := Qeq_bool;
  round := Qround_digits
}.

(** ** Binary64: the arithmetic Python runs *)

(** The float of an [int] (exact below 2^53). *)
Definition float_of_Z (z : Z) : PrimFloat.float :=
  FloatOps.SF2Prim
    match z with
    | Z0 => SpecFloat.S754_zero false
    | Zpos p => SpecFloat.S754_finite false p 0
    | Zneg p => SpecFloat.S754_finite true p 0
    end.

(** A literal denotes the float nearest to it: the correctly rounded
    quotient of its numerator and denominator (both below 2^53 for the
    literals of this program). *)
Definition float_of_literal (q : Q) : PrimFloat.float :=
  PrimFloat.div (float_of_Z (Qnum q)) (float_of_Z (Zpos (Qden q))).

(** The rational a finite float stands for. *)
Definition float_value (s : bool) (m : positive) (e : Z) : Q :=
  (if s then - inject_Z (Zpos m) else inject_Z (Zpos m)) * 2 ^ e.

(** [round(x, n)] on a float, for [0 <= n <= 15] (the program uses 2 and
    3): the float nearest to the decimal with [n] places nearest to the
    exact value of [x], ties to even. Zeros, infinities and NaN are
    returned as they are; a result of zero keeps the sign of [x]; beyond
    [2^53 / 10^n] the nearest float is [x] itself. *)
Definition float_round (x : PrimFloat.float) (n : Z) : PrimFloat.float :=
  match FloatOps.Prim2SF x with
  | SpecFloat.S754_finite s m e =>
    let k := round_half_even (float_value s m e * 10 ^ n) in
    if (Z.abs k <? 2 ^ 53)%Z then
      if (k =? 0)%Z then (if s then PrimFloat.neg_zero else PrimFloat.zero)
      else PrimFloat.div (float_of_Z k) (float_of_Z (10 ^ n))
    else x
  | _ => x
  end.

#[export] Instance binary64 : Number PrimFloat.float := {
  lit := float_of_literal;
  mul := PrimFloat.mul;
  quot := PrimFloat.div;
  ltb := PrimFloat.ltb;
  leb := PrimFloat.leb;
  eqb := PrimFloat.eqb;
  round := float_round
}.

#[export] Instance binary64_sqrt : MathSqrt PrimFloat.float := {
  math_sqrt := PrimFloat.sqrt
}.

(** ** The vocabulary of the statements made in exact arithmetic *)

(** The standard cross-sections (square millimetres), smallest first. *)
Definition catalog : list Q :=
  [1.5; 2.5; 4; 6; 10; 16; 25; 35; 50; 70; 95; 120; 150; 185; 240; 300; 400].

(** Every catalog size has a positive rating under each installation
    method and a positive voltage-drop factor. *)
Definition entry_ok (mat : material) (s : Q) (m : string) : bool :=
  match base_capacity_at (current_ratings mat) m s,
        lookup eqb (voltage_drop_factors mat) s with
  | Some base, Some vd => Qltb 0 base && Qltb 0 vd
  | _, _ => false
  end.

(** The voltage drop over the run, as a percentage of the supply voltage. *)
Definition voltage_drop_percent_of (vd cur len V : Q) : Q :=
  vd * cur * len / (V * 1000) * 100.

(** Size [s] meets both criteria: its derated rating carries the current
    and its voltage drop stays within the limit. *)
Definition qualifies (mat : material) (m : string) (cur len d mx V s : Q) : Prop :=
  exists base vd,
    base_capacity_at (current_ratings mat) m s = Some base /\
    lookup eqb (voltage_drop_factors mat) s = Some vd /\
    cur <= base * d /\
    voltage_drop_percent_of vd cur len V <= mx.

(** The rating and the factor of a catalog size ([0] off the catalog). *)
Definition rating_of (mat : material) (m : string) (s : Q) : Q :=
  match base_capacity_at (current_ratings mat) m s with
  | Some base => base
  | None => 0
  end.

Definition factor_of (mat : material) (s : Q) : Q :=
  match lookup eqb (voltage_drop_factors mat) s with
  | Some vd => vd
  | None => 0
  end.

(** Checks, over the whole catalog, of how the table entries are ordered:
    along the sizes, between the two materials, and between the three
    installation methods. *)
Definition sizes_ordered (mat : material) : bool :=
  forallb (fun s =>
    forallb (fun s' =>
      if Qltb s s' then
        Qltb (factor_of mat s') (factor_of mat s) &&
        forallb (fun m => Qltb (rating_of mat m s) (rating_of mat m s')) method_keys
      else true) catalog) catalog.

Definition materials_ordered : bool :=
  forallb (fun s =>
    Qle_bool (factor_of Copper s) (factor_of Aluminium s) &&
    forallb (fun m => Qle_bool (rating_of Aluminium m s) (rating_of Copper m s))
            method_keys) catalog.

Definition methods_ordered (mat : material) : bool :=
  forallb (fun s =>
    Qle_bool (rating_of mat "pipe_duct" s) (rating_of mat "ground" s) &&
    Qle_bool (rating_of mat "ground" s) (rating_of mat "free_air" s)) catalog.

Definition valid_voltage (V : Q) : Prop := V == 230 \/ V == 415.

Definition valid_power_factor (pf : Q) : Prop := 0 < pf /\ pf <= 1.

(** The divisor of the power formula: [V * pf] on a single phase,
    [sqrt(3) * V * pf] on three. *)
Definition power_divisor {ms : MathSqrt Q} (V pf : Q) : Q :=
  if Qeq_bool V 230 then V * pf else math_sqrt 3 * V * pf.

(** A rational stand-in for [math.sqrt]: the square root cut off after 15
    decimal places. *)
Definition Qsqrt_decimal (x : Q) : Q :=
  Z.sqrt (Qnum x * 10 ^ 30 / Zpos (Qden x)) # 10 ^ 15.

Definition decimal_sqrt : MathSqrt Q := {| math_sqrt := Qsqrt_decimal |}.

(** ** The two tests of the loop, in the arithmetic of the code

    The tests as [select_cable] evaluates them: every product and
    quotient is the arithmetic's own (rounded, in binary64), and the
    comparisons are made on the results. *)

Section Tests.

Context {F : Type} {num : Number F}.

(** [voltage_drop_percent], from [vd_factor * calculated_current * length]. *)
Definition voltage_drop_percent_in (vd cur len V : F) : F :=
  mul (quot (mul (mul vd cur) len) (mul V (lit 1000))) (lit 100).

(** [derated_capacity >= calculated_current] holds at size [s]. *)
Definition passes_capacity (mat : material) (m : string) (cur d s : F) : Prop :=
  exists base,
    base_capacity_at (current_ratings mat) m s = Some base /\
    geb (mul base d) cur = true.

(** Both tests hold at size [s]. *)
Definition passes_both (mat : material) (m : string) (cur len d mx V s : F) : Prop :=
  exists base vd,
    base_capacity_at (current_ratings mat) m s = Some base /\
    lookup eqb (voltage_drop_factors mat) s = Some vd /\
    geb (mul base d) cur = true /\
    leb (voltage_drop_percent_in vd cur len V) mx = true.

(** The list is strictly ascending for [<]: each element is below all
    that follow it, none of which is below it, and below itself
    neither. *)
Fixpoint ascending (l : list F) : bool :=
  match l with
  | [] => true
  | x :: l' =>
    negb (ltb x x) && forallb (fun y => ltb x y && negb (ltb y x)) l' && ascending l'
  end.

End Tests.

(** The catalog as floats. *)
Definition catalog64 : list PrimFloat.float := map lit catalog.

(** The string holds ASCII characters only (on such strings [upper] and
    [lower] are [str.upper] and [str.lower]). *)
Definition is_ascii (s : string) : bool :=
  forallb (fun c => (nat_of_ascii c <? 128)%nat) (list_ascii_of_string s).

(** ** Runs of the loop *)

Section LoopRuns.

Context {F : Type} {num : Number F}.
Variables (current_dict : list (F * list (string * F))) (vd_dict : list (F * F)).
Variables (method_key : string).
Variables (calculated_current length derating_factor max_voltage_drop_percent voltage : F).

Let try := try_size current_dict vd_dict method_key calculated_current length
             derating_factor max_voltage_drop_percent voltage.

(** Every run of the loop is one of three: all sizes passed over, or a
    first size at which the body returns, or a first size at which it
    raises. *)
Inductive loop_run (sizes : list F) : result selection -> Prop :=
| run_exhausted :
    Forall (fun s => try s = Return None) sizes ->
    loop_run sizes (Return (no_suitable_cable max_voltage_drop_percent))
| run_selected pre s post r :
    sizes = (pre ++ s :: post)%list ->
    Forall (fun s' => try s' = Return None) pre ->
    try s = Return (Some r) ->
    loop_run sizes (Return r)
| run_raised pre s post e :
    sizes = (pre ++ s :: post)%list ->
    Forall (fun s' => try s' = Return None) pre ->
    try s = Raise e ->
    loop_run sizes (Raise e).

End LoopRuns.

(** * Properties *)

Local Open Scope list_scope.

(** ** The error monad *)

Lemma bind_Return_inv {A B : Type} (r : result A) (k : A -> result B) (b : B) :
  bind r k = Return b -> exists a, r = Return a /\ k a = Return b.
Proof.
  destruct r as [a | e]; simpl; intros H; [exists a; auto | discriminate].
Qed.

Lemma bind_Raise_inv {A B : Type} (r : result A) (k : A -> result B) (e : exn) :
  bind r k = Raise e -> r = Raise e \/ exists a, r = Return a /\ k a = Raise e.
Proof.
  destruct r as [a | e']; simpl; intros H; [right; exists a; auto | left; congruence].
Qed.

Lemma getitem_Return_inv {K V : Type} (same : K -> K -> bool) (d : list (K * V)) k v :
  getitem same d k = Return v -> lookup same d k = Some v.
Proof.
  unfold getitem. destruct (lookup same d k); intros H; inversion H; reflexivity.
Qed.

Lemma getitem_Raise_inv {K V : Type} (same : K -> K -> bool) (d : list (K * V)) k e :
  getitem same d k = Raise e -> e = KeyError /\ lookup same d k = None.
Proof.
  unfold getitem. destruct (lookup same d k); intros H; inversion H; auto.
Qed.

Lemma getitem_Some {K V : Type} (same : K -> K -> bool) (d : list (K * V)) k v :
  lookup same d k = Some v -> getitem same d k = Return v.
Proof. unfold getitem. intros ->. reflexivity. Qed.

(** ** The loop, for any arithmetic *)

Section Loop.

Context {F : Type} {num : Number F}.
Variables (current_dict : list (F * list (string * F))) (vd_dict : list (F * F)).
Variables (method_key : string).
Variables (calculated_current length derating_factor max_voltage_drop_percent voltage : F).

Let try := try_size current_dict vd_dict method_key calculated_current length
             derating_factor max_voltage_drop_percent voltage.
Let scan := scan_sizes current_dict vd_dict method_key calculated_current length
              derating_factor max_voltage_drop_percent voltage.

(** Sizes the loop passes over are skipped without effect. *)
Lemma scan_sizes_skip (pre rest : list F) :
  Forall (fun s => try s = Return None) pre -> scan (pre ++ rest) = scan rest.
Proof.
  induction 1 as [| s pre Hs _ IH]; simpl; [reflexivity |].
  unfold scan, try in *. simpl. rewrite Hs. simpl. exact IH.
Qed.

Lemma scan_sizes_exhausted (sizes : list F) :
  Forall (fun s => try s = Return None) sizes ->
  scan sizes = Return (no_suitable_cable max_voltage_drop_percent).
Proof.
  intros H. rewrite <- (app_nil_r sizes). rewrite scan_sizes_skip by exact H.
  reflexivity.
Qed.

Lemma scan_sizes_stops (pre : list F) (s : F) (post : list F) (o : result (option selection)) :
  Forall (fun s' => try s' = Return None) pre ->
  try s = o ->
  scan (pre ++ s :: post) =
    match o with
    | Return (Some r) => Return r
    | Return None => scan post
    | Raise e => Raise e
    end.
Proof.
  intros Hpre Hs. rewrite scan_sizes_skip by exact Hpre.
  unfold scan, try in *. simpl. rewrite Hs. destruct o as [[r |] | e]; reflexivity.
Qed.

Lemma scan_sizes_run (sizes : list F) :
  loop_run current_dict vd_dict method_key calculated_current length
    derating_factor max_voltage_drop_percent voltage sizes (scan sizes).
Proof.
  induction sizes as [| s rest IH].
  - apply run_exhausted. constructor.
  - unfold scan in *. simpl. fold try.
    destruct (try s) as [[r |] | e] eqn:Hs; simpl.
    + apply run_selected with (pre := []) (s := s) (post := rest); auto.
    + inversion IH as [Hall Hr | pre s' post r Hsplit Hpre Hs' Hr
                       | pre s' post e Hsplit Hpre Hs' Hr].
      * apply run_exhausted. constructor; assumption.
      * apply run_selected with (pre := s :: pre) (s := s') (post := post);
          [subst; reflexivity | | assumption].
        constructor; assumption.
      * apply run_raised with (pre := s :: pre) (s := s') (post := post);
          [subst; reflexivity | | assumption].
        constructor; assumption.
    + apply run_raised with (pre := []) (s := s) (post := rest); auto.
Qed.

End Loop.

(** ** The loop body and the entry checks, for any arithmetic *)

Section Body.

Context {F : Type} {num : Number F}.

Lemma base_capacity_at_inv (current_dict : list (F * list (string * F))) m s base :
  base_capacity_at current_dict m s = Some base ->
  exists row, lookup eqb current_dict s = Some row /\ lookup String.eqb row m = Some base.
Proof.
  unfold base_capacity_at. destruct (lookup eqb current_dict s) as [row |]; [| discriminate].
  intros H. exists row. auto.
Qed.

(** The body at a size both tables know. *)
Lemma try_size_known current_dict vd_dict m (cur len d mx V s base vd : F) :
  base_capacity_at current_dict m s = Some base ->
  lookup eqb vd_dict s = Some vd ->
  try_size current_dict vd_dict m cur len d mx V s =
    if geb (mul base d) cur then
      if eqb (mul V (lit 1000)) (lit 0) then Raise ZeroDivisionError
      else if leb (mul (quot (mul (mul vd cur) len) (mul V (lit 1000))) (lit 100)) mx then
        if eqb len (lit 0) then Raise ZeroDivisionError
        else Return (Some (selected s base vd cur len d V))
      else Return None
    else Return None.
Proof.
  intros Hb Hv. apply base_capacity_at_inv in Hb. destruct Hb as (row & Hrow & Hbase).
  unfold try_size. rewrite (getitem_Some _ _ _ _ Hrow). simpl.
  rewrite (getitem_Some _ _ _ _ Hbase). simpl.
  destruct (geb (mul base d) cur); [| reflexivity].
  rewrite (getitem_Some _ _ _ _ Hv). simpl. unfold truediv.
  destruct (eqb (mul V (lit 1000)) (lit 0)); simpl; [reflexivity |].
  destruct (leb _ mx); [| reflexivity].
  destruct (eqb len (lit 0)); reflexivity.
Qed.

(** What a [return] inside the loop tells about the size returned. *)
Lemma try_size_selected_inv current_dict vd_dict m (cur len d mx V s : F) r :
  try_size current_dict vd_dict m cur len d mx V s = Return (Some r) ->
  exists base vd,
    base_capacity_at current_dict m s = Some base /\
    lookup eqb vd_dict s = Some vd /\
    geb (mul base d) cur = true /\
    eqb (mul V (lit 1000)) (lit 0) = false /\
    leb (mul (quot (mul (mul vd cur) len) (mul V (lit 1000))) (lit 100)) mx = true /\
    eqb len (lit 0) = false /\
    r = selected s base vd cur len d V.
Proof.
  unfold try_size. intros H.
  apply bind_Return_inv in H. destruct H as (row & Hrow & H).
  apply bind_Return_inv in H. destruct H as (base & Hbase & H).
  apply getitem_Return_inv in Hrow. apply getitem_Return_inv in Hbase.
  destruct (geb (mul base d) cur) eqn:Hcap; [| discriminate].
  apply bind_Return_inv in H. destruct H as (vd & Hvd & H).
  apply getitem_Return_inv in Hvd.
  apply bind_Return_inv in H. destruct H as (q & Hq & H).
  unfold truediv in Hq.
  destruct (eqb (mul V (lit 1000)) (lit 0)) eqn:HV; [discriminate |].
  inversion Hq; subst q; clear Hq.
  destruct (leb _ mx) eqn:Hvd_ok; [| discriminate].
  apply bind_Return_inv in H. destruct H as (pm & Hpm & H).
  unfold truediv in Hpm.
  destruct (eqb len (lit 0)) eqn:Hlen; [discriminate |].
  inversion Hpm; subst pm; clear Hpm.
  exists base, vd. unfold base_capacity_at. rewrite Hrow.
  repeat split; try assumption. inversion H. reflexivity.
Qed.

(** The body raises only [KeyError] and [ZeroDivisionError]. *)
Lemma try_size_raises current_dict vd_dict m (cur len d mx V s : F) e :
  try_size current_dict vd_dict m cur len d mx V s = Raise e ->
  e = KeyError \/ e = ZeroDivisionError.
Proof.
  unfold try_size. intros H.
  apply bind_Raise_inv in H. destruct H as [H | (row & _ & H)];
    [apply getitem_Raise_inv in H; tauto |].
  apply bind_Raise_inv in H. destruct H as [H | (base & _ & H)];
    [apply getitem_Raise_inv in H; tauto |].
  destruct (geb (mul base d) cur); [| discriminate].
  apply bind_Raise_inv in H. destruct H as [H | (vd & _ & H)];
    [apply getitem_Raise_inv in H; tauto |].
  assert (Hdiv : forall x y e', truediv x y = Raise e' -> e' = ZeroDivisionError).
  { intros x y e'. unfold truediv. destruct (eqb y (lit 0)); intros E; inversion E; reflexivity. }
  apply bind_Raise_inv in H. destruct H as [H | (q & _ & H)];
    [right; exact (Hdiv _ _ _ H) |].
  destruct (leb _ mx); [| discriminate].
  apply bind_Raise_inv in H. destruct H as [H | (pm & _ & H)];
    [right; exact (Hdiv _ _ _ H) | discriminate].
Qed.

(** [select_cable] is its two entry checks followed by the loop over the
    sorted keys of the chosen capacity table. *)
Lemma select_cable_eq (cur : F) ct im (len d mx V : F) :
  select_cable cur ct im len d mx V =
    match material_of ct with
    | None => Raise (ValueError "conductor_type must be 'Cu' or 'Al'")
    | Some mat =>
      if str_in (lower im) method_keys then
        scan_sizes (current_ratings mat) (voltage_drop_factors mat) (lower im)
          cur len d mx V (sorted (keys (current_ratings mat)))
      else
        Raise (ValueError
                 "installation_method must be 'ground', 'free_air', or 'pipe_duct'")
    end.
Proof.
  unfold select_cable, material_of, method_keys.
  destruct (String.eqb (upper ct) "CU"); cbn [bind].
  - destruct (str_in (lower im) ["ground"; "free_air"; "pipe_duct"]); reflexivity.
  - destruct (String.eqb (upper ct) "AL"); cbn [bind]; [| reflexivity].
    destruct (str_in (lower im) ["ground"; "free_air"; "pipe_duct"]); reflexivity.
Qed.

Lemma str_in_In (s : string) (l : list string) : str_in s l = true <-> In s l.
Proof.
  unfold str_in. rewrite existsb_exists. split.
  - intros (x & Hx & E). apply String.eqb_eq in E. subst. exact Hx.
  - intros H. exists s. split; [exact H | apply String.eqb_refl].
Qed.

End Body.

(** ** The catalog, in exact arithmetic *)

Lemma keys_current_ratings (mat : material) : keys (current_ratings (F:=Q) mat) = catalog.
Proof. destruct mat; reflexivity. Qed.

Lemma keys_voltage_drop_factors (mat : material) :
  keys (voltage_drop_factors (F:=Q) mat) = catalog.
Proof. destruct mat; reflexivity. Qed.

Lemma sorted_catalog : sorted catalog = catalog.
Proof. vm_compute. reflexivity. Qed.

Lemma catalog_ascending : StronglySorted Qlt catalog.
Proof.
  unfold catalog.
  repeat (apply SSorted_cons; [| repeat (apply Forall_cons; [reflexivity |]); apply Forall_nil]).
  apply SSorted_nil.
Qed.

Lemma entries_ok (mat : material) :
  forallb (fun s => forallb (entry_ok mat s) method_keys) catalog = true.
Proof. destruct mat; vm_compute; reflexivity. Qed.

Lemma Qltb_lt (x y : Q) : Qltb x y = true <-> x < y.
Proof.
  unfold Qltb. rewrite Qlt_alt. destruct (Qcompare x y); split; congruence.
Qed.

Lemma catalog_entry (mat : material) (m : string) (s : Q) :
  In s catalog -> In m method_keys ->
  exists base vd,
    base_capacity_at (current_ratings mat) m s = Some base /\
    lookup eqb (voltage_drop_factors mat) s = Some vd /\
    0 < base /\ 0 < vd.
Proof.
  intros Hs Hm. pose proof (entries_ok mat) as H.
  rewrite forallb_forall in H. specialize (H s Hs).
  rewrite forallb_forall in H. specialize (H m Hm).
  unfold entry_ok in H.
  destruct (base_capacity_at (current_ratings mat) m s) as [base |]; [| discriminate].
  destruct (lookup eqb (voltage_drop_factors mat) s) as [vd |]; [| discriminate].
  apply andb_true_iff in H. destruct H as [Hb Hv].
  exists base, vd. rewrite <- !Qltb_lt. auto.
Qed.

(** In an ascending list, whatever stands before an element is smaller
    and whatever stands after it is larger. *)
Lemma ascending_split (pre : list Q) (s : Q) (post : list Q) :
  StronglySorted Qlt (pre ++ s :: post) ->
  Forall (fun x => x < s) pre /\ Forall (fun x => s < x) post.
Proof.
  induction pre as [| a pre IH]; simpl; intros H.
  - split; [constructor |]. inversion H; assumption.
  - inversion H as [| ? ? Hrest Hall]; subst.
    destruct (IH Hrest) as [Hpre Hpost]. split; [| exact Hpost].
    constructor; [| exact Hpre].
    rewrite Forall_forall in Hall. apply Hall. apply in_or_app. right. left. reflexivity.
Qed.

(** ** The two criteria, in exact arithmetic *)

Lemma try_size_exact mat m (cur len d mx V s base vd : Q) :
  base_capacity_at (current_ratings mat) m s = Some base ->
  lookup eqb (voltage_drop_factors mat) s = Some vd ->
  try_size (current_ratings mat) (voltage_drop_factors mat) m cur len d mx V s =
    if Qle_bool cur (base * d) then
      if Qeq_bool (V * 1000) 0 then Raise ZeroDivisionError
      else if Qle_bool (voltage_drop_percent_of vd cur len V) mx then
        if Qeq_bool len 0 then Raise ZeroDivisionError
        else Return (Some (selected s base vd cur len d V))
      else Return None
    else Return None.
Proof. intros Hb Hv. rewrite (try_size_known _ _ _ cur len d mx V _ _ _ Hb Hv). reflexivity. Qed.

Lemma voltage_scaled_nonzero (V : Q) : ~ V == 0 -> Qeq_bool (V * 1000) 0 = false.
Proof.
  intros HV. destruct (Qeq_bool (V * 1000) 0) eqn:E; [| reflexivity].
  apply Qeq_bool_iff in E. exfalso. apply HV. lra.
Qed.


(** [select_cable] on a recognised material and method is the loop over
    the catalog. *)
Lemma select_cable_scan (cur : Q) ct im (len d mx V : Q) mat :
  material_of ct = Some mat -> In (lower im) method_keys ->
  select_cable cur ct im len d mx V =
    scan_sizes (current_ratings mat) (voltage_drop_factors mat) (lower im)
      cur len d mx V catalog.
Proof.
  intros Hmat Hm. rewrite select_cable_eq, Hmat.
  apply str_in_In in Hm. rewrite Hm.
  rewrite keys_current_ratings, sorted_catalog. reflexivity.
Qed.

(** ** Selection *)

(** The boundary: at 10 sq mm the derated rating equals the current,
    63 A, and over 10 m the size is selected. *)
Example capacity_equal_to_current_qualifies :
  select_cable 63 "Cu" "ground" 10 1 3 415 = Return (selected 10 63 4.40 63 10 1 415).
Proof. vm_compute. reflexivity. Qed.

(** What a normal return of [select_cable] tells: the material and the
    method were recognised, and either the loop ran out of sizes or it
    returned at the first size [s] of the catalog it did not pass over. *)
Lemma select_cable_Return_cases (cur : Q) ct im (len d mx V : Q) r :
  select_cable cur ct im len d mx V = Return r ->
  exists mat,
    material_of ct = Some mat /\ In (lower im) method_keys /\
    (r = no_suitable_cable mx \/
     exists pre s post base vd,
       catalog = pre ++ s :: post /\
       Forall (fun s' =>
                 try_size (current_ratings mat) (voltage_drop_factors mat) (lower im)
                   cur len d mx V s' = Return None) pre /\
       base_capacity_at (current_ratings mat) (lower im) s = Some base /\
       lookup eqb (voltage_drop_factors mat) s = Some vd /\
       cur <= base * d /\
       voltage_drop_percent_of vd cur len V <= mx /\
       ~ len == 0 /\ ~ V == 0 /\
       r = selected s base vd cur len d V).
Proof.
  intros H. rewrite select_cable_eq in H.
  destruct (material_of ct) as [mat |] eqn:Hmat; [| discriminate].
  destruct (str_in (lower im) method_keys) eqn:Hm; [| discriminate].
  apply str_in_In in Hm. exists mat. split; [reflexivity |]. split; [exact Hm |].
  rewrite keys_current_ratings, sorted_catalog in H.
  pose proof (scan_sizes_run (current_ratings mat) (voltage_drop_factors mat) (lower im)
                cur len d mx V catalog) as Hrun.
  rewrite H in Hrun.
  inversion Hrun as [Hall Hr | pre s post r' Hsplit Hpre Hs Hr | pre s post e Hsplit Hpre Hs Hr].
  - left. reflexivity.
  - right. subst r'.
    apply try_size_selected_inv in Hs.
    destruct Hs as (base & vd & Hb & Hv & Hcap & HV & Hdrop & Hlen & ->).
    exists pre, s, post, base, vd.
    repeat split; try assumption.
    + apply Qle_bool_iff. exact Hcap.
    + apply Qle_bool_iff. exact Hdrop.
    + intros E. apply Qeq_bool_iff in E. change (Qeq_bool len 0 = false) in Hlen. congruence.
    + intros E. change (Qeq_bool (V * 1000) 0 = false) in HV.
      assert (E' : V * 1000 == 0) by (rewrite E; reflexivity).
      apply Qeq_bool_iff in E'. congruence.
Qed.

(** ** Rounding *)

Lemma round_half_even_near (x : Q) :
  x - (1 # 2) <= inject_Z (round_half_even x) /\ inject_Z (round_half_even x) <= x + (1 # 2).
Proof.
  unfold round_half_even.
  pose proof (Qfloor_le x) as Hlo. pose proof (Qlt_floor x) as Hhi.
  assert (Hnext : inject_Z (Qfloor x + 1) = inject_Z (Qfloor x) + 1)
    by apply inject_Z_plus.
  rewrite Hnext in Hhi.
  destruct (Qcompare (x - inject_Z (Qfloor x)) (1 # 2)) eqn:C.
  - apply Qeq_alt in C. destruct (Z.even (Qfloor x)); [| rewrite Hnext]; split; lra.
  - apply Qlt_alt in C. split; lra.
  - apply Qgt_alt in C. rewrite Hnext. split; lra.
Qed.

(** A figure rounded to 2 decimal places is within half a hundredth of
    the figure itself. *)
Lemma Qround_digits_2_near (x : Q) :
  x - (1 # 200) <= Qround_digits x 2 /\ Qround_digits x 2 <= x + (1 # 200).
Proof.
  unfold Qround_digits. change (10 ^ 2) with 100.
  destruct (round_half_even_near (x * 100)) as [Hlo Hhi].
  set (n := inject_Z (round_half_even (x * 100))) in *.
  unfold Qdiv. change (/ 100) with (1 # 100). split; lra.
Qed.

(** ** Monotonicity in the current *)




(** ** A route of length zero *)

(** At a catalog size the body raises nothing but [ZeroDivisionError]. *)
Lemma try_size_catalog_raises mat m (cur len d mx V s : Q) e :
  In s catalog -> In m method_keys ->
  try_size (current_ratings mat) (voltage_drop_factors mat) m cur len d mx V s = Raise e ->
  e = ZeroDivisionError.
Proof.
  intros Hs Hm. destruct (catalog_entry mat _ _ Hs Hm) as (base & vd & Hb & Hv & _ & _).
  rewrite (try_size_exact _ _ cur len d mx V _ _ _ Hb Hv).
  destruct (Qle_bool cur (base * d)); [| discriminate].
  destruct (Qeq_bool (V * 1000) 0); [intros H; inversion H; reflexivity |].
  destruct (Qle_bool _ mx); [| discriminate].
  destruct (Qeq_bool len 0); [intros H; inversion H; reflexivity | discriminate].
Qed.




(** ** The tables agree *)

Lemma scan_catalog_no_KeyError mat m (cur len d mx V : Q) :
  In m method_keys ->
  scan_sizes (current_ratings mat) (voltage_drop_factors mat) m cur len d mx V catalog
    <> Raise KeyError.
Proof.
  intros Hm Hscan.
  pose proof (scan_sizes_run (current_ratings mat) (voltage_drop_factors mat) m
                cur len d mx V catalog) as Hrun.
  rewrite Hscan in Hrun.
  inversion Hrun as [| | pre t post e Hsplit Hpre Ht He].
  apply try_size_catalog_raises in Ht; [discriminate Ht | | exact Hm].
  rewrite Hsplit. apply in_or_app. right. left. reflexivity.
Qed.

(** C9. For each material the capacity table and the voltage-drop table
    have the same keys; the sizes [select_cable] visits are those keys in
    ascending order; and every size visited has a row with a rating for
    each installation method and a voltage-drop factor, so that no lookup
    of the scan fails. *)
Theorem tables_share_ascending_catalog (mat : material) :
  (forall s, In s (keys (current_ratings (F:=Q) mat))
             <-> In s (keys (voltage_drop_factors (F:=Q) mat))) /\
  sorted (keys (current_ratings (F:=Q) mat)) = catalog /\
  StronglySorted Qlt catalog /\
  (forall (cur : Q) ct im (len d mx V : Q),
     material_of ct = Some mat -> In (lower im) method_keys ->
     select_cable cur ct im len d mx V =
       scan_sizes (current_ratings mat) (voltage_drop_factors mat) (lower im)
         cur len d mx V catalog) /\
  (forall s, In s (sorted (keys (current_ratings (F:=Q) mat))) ->
     (exists row, lookup eqb (current_ratings mat) s = Some row /\
        forall m, In m method_keys -> exists base, lookup String.eqb row m = Some base) /\
     (exists vd, lookup eqb (voltage_drop_factors mat) s = Some vd)) /\
  (forall (cur : Q) ct im (len d mx V : Q),
     material_of ct = Some mat ->
     select_cable cur ct im len d mx V <> Raise KeyError).
Proof.
  split; [| split; [| split; [| split; [| split]]]].
  - intros s. rewrite keys_current_ratings, keys_voltage_drop_factors. reflexivity.
  - rewrite keys_current_ratings. exact sorted_catalog.
  - exact catalog_ascending.
  - intros. apply select_cable_scan; assumption.
  - rewrite keys_current_ratings, sorted_catalog. intros s Hs. split.
    + destruct (catalog_entry mat "ground" s Hs) as (b & _ & Hb & _); [simpl; auto |].
      apply base_capacity_at_inv in Hb. destruct Hb as (row & Hrow & _).
      exists row. split; [exact Hrow |]. intros m Hm.
      destruct (catalog_entry mat m s Hs Hm) as (b' & _ & Hb' & _).
      unfold base_capacity_at in Hb'. change (@eqb Q Q_number) with Qeq_bool in *.
      rewrite Hrow in Hb'. exists b'. exact Hb'.
    + destruct (catalog_entry mat "ground" s Hs) as (_ & vd & _ & Hv & _); [simpl; auto |].
      exists vd. exact Hv.
  - intros cur ct im len d mx V Hmat H.
    rewrite select_cable_eq, Hmat in H.
    destruct (str_in (lower im) method_keys) eqn:Hm; [| discriminate H].
    apply str_in_In in Hm.
    rewrite keys_current_ratings, sorted_catalog in H.
    exact (scan_catalog_no_KeyError mat (lower im) cur len d mx V Hm H).
Qed.

(** Aluminium, 95 sq mm. *)
Lemma tables_share_ascending_catalog_witness :
  (exists row, lookup eqb (current_ratings (F:=Q) Aluminium) 95 = Some row /\
     forall m, In m method_keys -> exists base, lookup String.eqb row m = Some base) /\
  (exists vd, lookup eqb (voltage_drop_factors (F:=Q) Aluminium) 95 = Some vd).
Proof.
  apply (proj1 (proj2 (proj2 (proj2 (proj2 (tables_share_ascending_catalog Aluminium)))))).
  vm_compute. auto 20.
Defined.

(** ** Which requests [select_cable] rejects *)

(** C6 (as the code has it). In any arithmetic, [select_cable] raises
    [ValueError] exactly when the conductor type, upper-cased, is neither
    [CU] nor [AL], or the installation method, lower-cased, is not one of
    the three keys; the message names the parameter. The current, the
    route length, the derating factor, the limit and the supply voltage
    are not checked: no value of theirs makes it raise [ValueError]. *)
Theorem select_cable_ValueError_iff {F : Type} {num : Number F}
    (cur : F) (ct im : string) (len d mx V : F) :
  (material_of ct = None ->
   select_cable cur ct im len d mx V =
     Raise (ValueError "conductor_type must be 'Cu' or 'Al'")) /\
  (material_of ct <> None -> ~ In (lower im) method_keys ->
   select_cable cur ct im len d mx V =
     Raise (ValueError "installation_method must be 'ground', 'free_air', or 'pipe_duct'")) /\
  ((exists msg, select_cable cur ct im len d mx V = Raise (ValueError msg))
   <-> material_of ct = None \/ ~ In (lower im) method_keys).
Proof.
  assert (Hct : material_of ct = None ->
                select_cable cur ct im len d mx V =
                  Raise (ValueError "conductor_type must be 'Cu' or 'Al'")).
  { intros H. rewrite select_cable_eq, H. reflexivity. }
  assert (Him : material_of ct <> None -> ~ In (lower im) method_keys ->
                select_cable cur ct im len d mx V =
                  Raise (ValueError
                           "installation_method must be 'ground', 'free_air', or 'pipe_duct'")).
  { intros H Hm. rewrite select_cable_eq.
    destruct (material_of ct) as [mat |]; [| congruence].
    destruct (str_in (lower im) method_keys) eqn:E; [| reflexivity].
    apply str_in_In in E. contradiction. }
  split; [exact Hct |]. split; [exact Him |]. split.
  - intros (msg & H). rewrite select_cable_eq in H.
    destruct (material_of ct) as [mat |]; [| left; reflexivity].
    destruct (str_in (lower im) method_keys) eqn:E.
    + exfalso.
      pose proof (scan_sizes_run (current_ratings mat) (voltage_drop_factors mat) (lower im)
                    cur len d mx V (sorted (keys (current_ratings mat)))) as Hrun.
      rewrite H in Hrun.
      inversion Hrun as [| | pre t post e Hsplit Hpre Ht He].
      apply try_size_raises in Ht. destruct Ht; discriminate.
    + right. intros Hm. apply str_in_In in Hm. congruence.
  - intros [H | H].
    + eexists. apply Hct. exact H.
    + destruct (material_of ct) eqn:Hmat.
      * eexists. apply Him; [congruence | exact H].
      * eexists. apply Hct. reflexivity.
Qed.

(** An unknown material, and an unknown method on a known material. *)
Lemma select_cable_ValueError_iff_witness :
  select_cable (F:=Q) 10 "Fe" "ground" 10 1 3 415
    = Raise (ValueError "conductor_type must be 'Cu' or 'Al'") /\
  select_cable (F:=Q) 10 "cu" "Tray" 10 1 3 415
    = Raise (ValueError "installation_method must be 'ground', 'free_air', or 'pipe_duct'").
Proof.
  split.
  - apply (proj1 (select_cable_ValueError_iff (F:=Q) 10 "Fe" "ground" 10 1 3 415)).
    reflexivity.
  - apply (proj1 (proj2 (select_cable_ValueError_iff (F:=Q) 10 "cu" "Tray" 10 1 3 415))).
    + discriminate.
    + simpl. intros [E | [E | [E | []]]]; discriminate E.
Defined.

(** C6, the claim as stated, fails: a derating factor of 1.5, outside
    (0, 1], is accepted and 1.5 sq mm is selected on a rating inflated to
    25.5 A. *)
Lemma select_cable_accepts_derating_above_one :
  1 < 1.5 /\
  select_cable 10 "Cu" "ground" 10 1.5 3 415 =
    Return {| size := Some 1.5;
              actual_capacity := Some (Qround_digits (17 * 1.5) 2);
              voltage_drop := Some (Qround_digits (29.5 * 10 * 10 / (415 * 1000) * 100) 2);
              voltage_drop_mv := Some (Qround_digits (29.5 * 10 * 10 / 10) 3);
              status := [Text "Selected"] |}.
Proof. split; vm_compute; reflexivity. Qed.

(** Nor are a negative route length or a negative current rejected. *)
Example select_cable_accepts_negative_length :
  select_cable 10 "Cu" "ground" (-10) 1 3 415 = Return (selected 1.5 17 29.5 10 (-10) 1 415).
Proof. vm_compute. reflexivity. Qed.

Example select_cable_accepts_negative_current :
  select_cable (-5) "Al" "free_air" 10 1 3 230 = Return (selected 1.5 18 47.2 (-5) 10 1 230).
Proof. vm_compute. reflexivity. Qed.

(** ** [calculate_current] *)

Section Checks.

Context {F : Type} {num : Number F} {ms : MathSqrt F}.

(** Past its three checks, [calculate_current] is the conversion. *)
Lemma calculate_current_checked (load_value : F) (load_type : string) (voltage power_factor : F) :
  str_in load_type ["kW"; "HP"; "Amps"] = true ->
  num_in voltage [lit 230; lit 415] = true ->
  ltb (lit 0) power_factor && leb power_factor (lit 1) = true ->
  calculate_current load_value load_type voltage power_factor =
    if String.eqb load_type "Amps" then Return load_value
    else
      current <-
        truediv
          (mul (if String.eqb load_type "HP" then mul load_value (lit 0.746) else load_value)
               (lit 1000))
          (if eqb voltage (lit 230) then mul voltage power_factor
           else mul (mul (math_sqrt (lit 3)) voltage) power_factor) ;;
      Return (round current 2).
Proof.
  intros Ht HV Hpf. unfold calculate_current. rewrite Ht, HV, Hpf. cbn [negb].
  destruct (String.eqb load_type "Amps"); [reflexivity |].
  destruct (eqb voltage (lit 230)); reflexivity.
Qed.

Lemma calculate_current_bad_type (load_value : F) (load_type : string) (voltage power_factor : F) :
  str_in load_type ["kW"; "HP"; "Amps"] = false ->
  calculate_current load_value load_type voltage power_factor =
    Raise (ValueError "load_type must be 'kW', 'HP', or 'Amps'").
Proof. intros Ht. unfold calculate_current. rewrite Ht. reflexivity. Qed.

Lemma calculate_current_bad_voltage (load_value : F) (load_type : string)
    (voltage power_factor : F) :
  str_in load_type ["kW"; "HP"; "Amps"] = true ->
  num_in voltage [lit 230; lit 415] = false ->
  calculate_current load_value load_type voltage power_factor =
    Raise (ValueError "voltage must be 230V (single-phase) or 415V (three-phase)").
Proof. intros Ht HV. unfold calculate_current. rewrite Ht, HV. reflexivity. Qed.

Lemma calculate_current_bad_power_factor (load_value : F) (load_type : string)
    (voltage power_factor : F) :
  str_in load_type ["kW"; "HP"; "Amps"] = true ->
  num_in voltage [lit 230; lit 415] = true ->
  ltb (lit 0) power_factor && leb power_factor (lit 1) = false ->
  calculate_current load_value load_type voltage power_factor =
    Raise (ValueError "power_factor must be between 0 and 1").
Proof. intros Ht HV Hpf. unfold calculate_current. rewrite Ht, HV, Hpf. reflexivity. Qed.

End Checks.

Section Current.

(** [math.sqrt] is left open: the statements hold for every
    implementation of it. *)
Context {ms : MathSqrt Q}.

Lemma num_in_voltage (V : Q) : num_in V [lit 230; lit 415] = true <-> valid_voltage V.
Proof.
  unfold num_in, valid_voltage. simpl existsb.
  change (@eqb Q Q_number) with Qeq_bool. change (@lit Q Q_number) with (fun q : Q => q).
  cbv beta. rewrite orb_false_r, orb_true_iff, !Qeq_bool_iff. reflexivity.
Qed.

Lemma power_factor_check (pf : Q) :
  ltb (lit 0) pf && leb pf (lit 1) = true <-> valid_power_factor pf.
Proof.
  unfold valid_power_factor. rewrite andb_true_iff.
  change (ltb (lit 0) pf) with (Qltb 0 pf). change (leb pf (lit 1)) with (Qle_bool pf 1).
  rewrite Qltb_lt, Qle_bool_iff. reflexivity.
Qed.

Lemma not_true_false (b : bool) (P : Prop) : (b = true <-> P) -> ~ P -> b = false.
Proof. intros H HP. destruct b; [exfalso; apply HP, H; reflexivity | reflexivity]. Qed.

Lemma power_divisor_nonzero (V pf : Q) :
  valid_voltage V -> valid_power_factor pf -> ~ math_sqrt 3 == 0 ->
  Qeq_bool (power_divisor V pf) 0 = false.
Proof.
  intros HV [Hpos _] Hsqrt.
  destruct (Qeq_bool (power_divisor V pf) 0) eqn:E; [| reflexivity].
  apply Qeq_bool_iff in E. exfalso. unfold power_divisor in E.
  assert (HVpf : ~ V * pf == 0).
  { intros Hz. apply Qmult_integral in Hz. destruct HV, Hz; lra. }
  destruct (Qeq_bool V 230); [contradiction |].
  assert (Hz : math_sqrt 3 * (V * pf) == 0) by (rewrite <- E; ring).
  apply Qmult_integral in Hz. tauto.
Qed.

(** The conversion of a power, in kW or ([hp = true]) in HP. *)
Lemma calculate_current_formula (load : Q) (hp : bool) (V pf : Q) :
  valid_voltage V -> valid_power_factor pf -> ~ math_sqrt 3 == 0 ->
  calculate_current load (if hp then "HP" else "kW") V pf =
    Return (Qround_digits
              ((if hp then load * 0.746 else load) * 1000 / power_divisor V pf) 2).
Proof.
  intros HV Hpf Hsqrt.
  pose proof (power_divisor_nonzero V pf HV Hpf Hsqrt) as Hnz.
  apply num_in_voltage in HV. apply power_factor_check in Hpf.
  rewrite calculate_current_checked; [| destruct hp; reflexivity | exact HV | exact Hpf].
  unfold truediv.
  change (eqb (if eqb V (lit 230) then mul V pf else mul (mul (math_sqrt (lit 3)) V) pf)
              (lit 0))
    with (Qeq_bool (power_divisor V pf) 0).
  rewrite Hnz. destruct hp; reflexivity.
Qed.

Lemma calculate_current_amps_value (load V pf : Q) :
  valid_voltage V -> valid_power_factor pf ->
  calculate_current load "Amps" V pf = Return load.
Proof.
  intros HV Hpf. apply num_in_voltage in HV. apply power_factor_check in Hpf.
  rewrite calculate_current_checked; [reflexivity | reflexivity | exact HV | exact Hpf].
Qed.

(** C4. With the load given in Amps, on a valid voltage and power factor
    [calculate_current] returns the load unchanged. Neither enters the
    value, yet both are checked first: an invalid voltage or power factor
    raises [ValueError] all the same. *)
Theorem calculate_current_amps (load V pf : Q) :
  (valid_voltage V -> valid_power_factor pf ->
   calculate_current load "Amps" V pf = Return load) /\
  (~ valid_voltage V ->
   calculate_current load "Amps" V pf =
     Raise (ValueError "voltage must be 230V (single-phase) or 415V (three-phase)")) /\
  (valid_voltage V -> ~ valid_power_factor pf ->
   calculate_current load "Amps" V pf =
     Raise (ValueError "power_factor must be between 0 and 1")).
Proof.
  split; [| split].
  - apply calculate_current_amps_value.
  - intros HV. apply calculate_current_bad_voltage; [reflexivity |].
    exact (not_true_false _ _ (num_in_voltage V) HV).
  - intros HV Hpf. apply calculate_current_bad_power_factor;
      [reflexivity | apply num_in_voltage; exact HV |].
    exact (not_true_false _ _ (power_factor_check pf) Hpf).
Qed.

(** C5. [calculate_current] raises [ValueError] if and only if the load
    type is not one of kW, HP, Amps, or the voltage is neither 230 nor
    415, or the power factor is outside (0, 1]; the message names the
    first parameter found at fault, in that order. On every other input
    it returns a value (given a non-zero [math.sqrt(3)]). *)
Theorem calculate_current_ValueError_iff (load : Q) (load_type : string) (V pf : Q) :
  ((exists msg, calculate_current load load_type V pf = Raise (ValueError msg))
   <-> ~ In load_type ["kW"; "HP"; "Amps"] \/ ~ valid_voltage V \/ ~ valid_power_factor pf) /\
  (~ In load_type ["kW"; "HP"; "Amps"] ->
   calculate_current load load_type V pf =
     Raise (ValueError "load_type must be 'kW', 'HP', or 'Amps'")) /\
  (In load_type ["kW"; "HP"; "Amps"] -> ~ valid_voltage V ->
   calculate_current load load_type V pf =
     Raise (ValueError "voltage must be 230V (single-phase) or 415V (three-phase)")) /\
  (In load_type ["kW"; "HP"; "Amps"] -> valid_voltage V -> ~ valid_power_factor pf ->
   calculate_current load load_type V pf =
     Raise (ValueError "power_factor must be between 0 and 1")) /\
  (In load_type ["kW"; "HP"; "Amps"] -> valid_voltage V -> valid_power_factor pf ->
   ~ math_sqrt 3 == 0 ->
   exists current, calculate_current load load_type V pf = Return current).
Proof.
  assert (Ht : ~ In load_type ["kW"; "HP"; "Amps"] ->
               calculate_current load load_type V pf =
                 Raise (ValueError "load_type must be 'kW', 'HP', or 'Amps'")).
  { intros H. apply calculate_current_bad_type.
    exact (not_true_false _ _ (str_in_In load_type _) H). }
  assert (Hv : In load_type ["kW"; "HP"; "Amps"] -> ~ valid_voltage V ->
               calculate_current load load_type V pf =
                 Raise (ValueError
                          "voltage must be 230V (single-phase) or 415V (three-phase)")).
  { intros H HV. apply calculate_current_bad_voltage; [apply str_in_In; exact H |].
    exact (not_true_false _ _ (num_in_voltage V) HV). }
  assert (Hp : In load_type ["kW"; "HP"; "Amps"] -> valid_voltage V ->
               ~ valid_power_factor pf ->
               calculate_current load load_type V pf =
                 Raise (ValueError "power_factor must be between 0 and 1")).
  { intros H HV Hpf. apply calculate_current_bad_power_factor;
      [apply str_in_In; exact H | apply num_in_voltage; exact HV |].
    exact (not_true_false _ _ (power_factor_check pf) Hpf). }
  split; [| split; [exact Ht | split; [exact Hv | split; [exact Hp |]]]].
  - split.
    + intros (msg & H).
      destruct (str_in load_type ["kW"; "HP"; "Amps"]) eqn:Et;
        [| left; intros Hin; apply str_in_In in Hin; congruence].
      destruct (num_in V [lit 230; lit 415]) eqn:EV;
        [| right; left; intros HV; apply num_in_voltage in HV; congruence].
      destruct (ltb (lit 0) pf && leb pf (lit 1)) eqn:Ep;
        [| right; right; intros Hpf; apply power_factor_check in Hpf; congruence].
      exfalso. rewrite (calculate_current_checked _ _ _ _ Et EV Ep) in H.
      destruct (String.eqb load_type "Amps"); [discriminate H |].
      unfold truediv in H. destruct (eqb _ (lit 0)); discriminate H.
    + intros Hbad.
      destruct (in_dec string_dec load_type ["kW"; "HP"; "Amps"]) as [Hin | Hin];
        [| eexists; apply Ht; exact Hin].
      destruct (num_in V [lit 230; lit 415]) eqn:EV.
      * apply num_in_voltage in EV. eexists. apply Hp; [exact Hin | exact EV |].
        destruct Hbad as [Hbad | [Hbad | Hbad]]; [contradiction | contradiction | exact Hbad].
      * eexists. apply Hv; [exact Hin |]. intros HV. apply num_in_voltage in HV. congruence.
  - intros Hin HV Hpf Hsqrt.
    simpl in Hin. destruct Hin as [<- | [<- | [<- | []]]].
    + eexists. exact (calculate_current_formula load false V pf HV Hpf Hsqrt).
    + eexists. exact (calculate_current_formula load true V pf HV Hpf Hsqrt).
    + eexists. exact (calculate_current_amps_value load V pf HV Hpf).
Qed.

End Current.

Lemma calculate_current_amps_witness :
  calculate_current (ms:=decimal_sqrt) 32.5 "Amps" 415 0.9 = Return 32.5 /\
  calculate_current (ms:=decimal_sqrt) 32.5 "Amps" 400 0.9
    = Raise (ValueError "voltage must be 230V (single-phase) or 415V (three-phase)") /\
  calculate_current (ms:=decimal_sqrt) 32.5 "Amps" 415 1.2
    = Raise (ValueError "power_factor must be between 0 and 1").
Proof.
  split; [| split].
  - apply (proj1 (@calculate_current_amps decimal_sqrt 32.5 415 0.9)).
    + right. reflexivity.
    + split; [reflexivity | intros H; discriminate H].
  - apply (proj1 (proj2 (@calculate_current_amps decimal_sqrt 32.5 400 0.9))).
    intros [H | H]; vm_compute in H; discriminate H.
  - apply (proj2 (proj2 (@calculate_current_amps decimal_sqrt 32.5 415 1.2))).
    + right. reflexivity.
    + intros [_ H]. apply H. reflexivity.
Defined.

Lemma calculate_current_ValueError_iff_witness :
  calculate_current (ms:=decimal_sqrt) 10 "kVA" 415 0.9
    = Raise (ValueError "load_type must be 'kW', 'HP', or 'Amps'") /\
  calculate_current (ms:=decimal_sqrt) 10 "kW" 240 0.9
    = Raise (ValueError "voltage must be 230V (single-phase) or 415V (three-phase)") /\
  calculate_current (ms:=decimal_sqrt) 10 "kW" 415 0
    = Raise (ValueError "power_factor must be between 0 and 1") /\
  exists current, calculate_current (ms:=decimal_sqrt) 10 "HP" 415 0.9 = Return current.
Proof.
  pose proof (@calculate_current_ValueError_iff decimal_sqrt) as H.
  split; [| split; [| split]].
  - apply (proj1 (proj2 (H 10 "kVA" 415 0.9))).
    simpl. intros [E | [E | [E | []]]]; discriminate E.
  - apply (proj1 (proj2 (proj2 (H 10 "kW" 240 0.9)))).
    + simpl. auto.
    + intros [E | E]; vm_compute in E; discriminate E.
  - apply (proj1 (proj2 (proj2 (proj2 (H 10 "kW" 415 0))))).
    + simpl. auto.
    + right. reflexivity.
    + intros [E _]. vm_compute in E. discriminate E.
  - apply (proj2 (proj2 (proj2 (proj2 (H 10 "HP" 415 0.9))))).
    + simpl. auto.
    + right. reflexivity.
    + split; [reflexivity | intros E; discriminate E].
    + intros E. vm_compute in E. discriminate E.
Defined.

(** ** The same runs in binary64 *)

Section Binary64Runs.

(** The worked example: 16 sq mm, 85.0 A, 2.09 %, 173.25 mV/m. *)
Example binary64_worked_example :
  select_cable (F:=PrimFloat.float) (lit 63) "Cu" "ground" (lit 50) (lit 1.0) (lit 3) (lit 415) =
    Return {| size := Some (lit 16);
              actual_capacity := Some (lit 85.0);
              voltage_drop := Some (lit 2.09);
              voltage_drop_mv := Some (lit 173.25);
              status := [Text "Selected"] |}.
Proof. vm_compute. reflexivity. Qed.

(** C8, the claim as stated, fails: at 1.5 sq mm the derated capacity
    [17 * 0.999] carries a current of 16.982 A, and the record returned
    gives a capacity figure of 16.98 A, below the current. *)
Example binary64_capacity_figure_below_current :
  select_cable (F:=PrimFloat.float) (lit 16.982) "Cu" "ground" (lit 10) (lit 0.999) (lit 3) (lit 415) =
    Return {| size := Some (lit 1.5);
              actual_capacity := Some (lit 16.98);
              voltage_drop := Some (lit 1.21);
              voltage_drop_mv := Some (lit 500.969);
              status := [Text "Selected"] |} /\
  ltb (F:=PrimFloat.float) (lit 16.98) (lit 16.982) = true.
Proof. split; vm_compute; reflexivity. Qed.

(** The record of the C6 counterexample: a derating factor of 1.5 is
    accepted. *)
Example binary64_accepts_derating_above_one :
  select_cable (F:=PrimFloat.float) (lit 10) "Cu" "ground" (lit 10) (lit 1.5) (lit 3) (lit 415) =
    Return {| size := Some (lit 1.5);
              actual_capacity := Some (lit 25.5);
              voltage_drop := Some (lit 0.71);
              voltage_drop_mv := Some (lit 295.0);
              status := [Text "Selected"] |}.
Proof. vm_compute. reflexivity. Qed.

Example binary64_capacity_equal_to_current :
  select_cable (F:=PrimFloat.float) (lit 63) "Cu" "ground" (lit 10) (lit 1.0) (lit 3) (lit 415) =
    Return {| size := Some (lit 10);
              actual_capacity := Some (lit 63.0);
              voltage_drop := Some (lit 0.67);
              voltage_drop_mv := Some (lit 277.2);
              status := [Text "Selected"] |}.
Proof. vm_compute. reflexivity. Qed.

Example binary64_zero_length :
  select_cable (F:=PrimFloat.float) (lit 10) "Cu" "ground" (lit 0) (lit 1) (lit 3) (lit 415) =
    Raise ZeroDivisionError.
Proof. vm_compute. reflexivity. Qed.

Example binary64_no_suitable_cable :
  select_cable (F:=PrimFloat.float) (lit 1000) "Cu" "ground" (lit 50) (lit 1) (lit 3) (lit 415) =
    Return (no_suitable_cable (lit 3)).
Proof. vm_compute. reflexivity. Qed.

Example binary64_single_phase :
  calculate_current (F:=PrimFloat.float) (lit 10) "kW" (lit 230) (lit 1.0) = Return (lit 43.48).
Proof. vm_compute. reflexivity. Qed.

Example binary64_three_phase :
  calculate_current (F:=PrimFloat.float) (lit 10) "kW" (lit 415) (lit 1.0) = Return (lit 13.91).
Proof. vm_compute. reflexivity. Qed.

Example binary64_horsepower :
  calculate_current (F:=PrimFloat.float) (lit 10) "HP" (lit 415) (lit 0.9) = Return (lit 11.53) /\
  calculate_current (F:=PrimFloat.float) (lit 7.46) "kW" (lit 415) (lit 0.9) = Return (lit 11.53).
Proof. split; vm_compute; reflexivity. Qed.

Example binary64_amps :
  calculate_current (F:=PrimFloat.float) (lit 32.5) "Amps" (lit 415) (lit 0.9) = Return (lit 32.5).
Proof. vm_compute. reflexivity. Qed.

End Binary64Runs.

(** * Further properties of the engine *)

(** ** Rounding, in exact arithmetic *)

Lemma round_half_even_bounds (x : Q) :
  (Qfloor x <= round_half_even x <= Qfloor x + 1)%Z.
Proof.
  unfold round_half_even.
  destruct (Qcompare (x - inject_Z (Qfloor x)) (1 # 2)); [destruct (Z.even (Qfloor x)) | |];
    split; lia.
Qed.

(** Reads a [Qcompare] outcome as the order fact it stands for. *)
Ltac read_compare H :=
  match type of H with
  | Qcompare _ _ = Eq => apply Qeq_alt in H
  | Qcompare _ _ = Lt => apply Qlt_alt in H
  | Qcompare _ _ = Gt => apply Qgt_alt in H
  end.

Lemma round_half_even_mono (x y : Q) :
  x <= y -> (round_half_even x <= round_half_even y)%Z.
Proof.
  intros Hxy. pose proof (Qfloor_resp_le x y Hxy) as Hf.
  destruct (Z.eq_dec (Qfloor x) (Qfloor y)) as [E | N].
  - unfold round_half_even. rewrite <- E.
    destruct (Qcompare (x - inject_Z (Qfloor x)) (1 # 2)) eqn:Cx;
      destruct (Qcompare (y - inject_Z (Qfloor x)) (1 # 2)) eqn:Cy;
      try (destruct (Z.even (Qfloor x))); try lia; exfalso;
      read_compare Cx; read_compare Cy; lra.
  - pose proof (round_half_even_bounds x). pose proof (round_half_even_bounds y).
    lia.
Qed.

Lemma round_half_even_inject_Z (k : Z) : round_half_even (inject_Z k) = k.
Proof.
  unfold round_half_even. rewrite Qfloor_Z.
  assert (C : Qcompare (inject_Z k - inject_Z k) (1 # 2) = Lt).
  { apply Qlt_alt. setoid_replace (inject_Z k - inject_Z k) with 0 by ring. reflexivity. }
  rewrite C. reflexivity.
Qed.

Lemma round_half_even_comp (x y : Q) : x == y -> round_half_even x = round_half_even y.
Proof.
  intros E. unfold round_half_even. rewrite (Qfloor_comp _ _ E).
  assert (C : Qcompare (x - inject_Z (Qfloor y)) (1 # 2)
              = Qcompare (y - inject_Z (Qfloor y)) (1 # 2)).
  { apply Qcompare_comp; [rewrite E |]; reflexivity. }
  rewrite C. reflexivity.
Qed.

Lemma ten_power_pos (n : Z) : 0 < 10 ^ n.
Proof. apply Qpower_0_lt. reflexivity. Qed.

(** Rounding to [n] places keeps the order. *)
Lemma Qround_digits_mono (x y : Q) (n : Z) :
  x <= y -> Qround_digits x n <= Qround_digits y n.
Proof.
  intros Hxy. unfold Qround_digits. pose proof (ten_power_pos n) as Hp.
  apply Qmult_le_compat_r; [| apply Qlt_le_weak, Qinv_lt_0_compat, Hp].
  rewrite <- Zle_Qle. apply round_half_even_mono.
  apply Qmult_le_compat_r; [exact Hxy | apply Qlt_le_weak, Hp].
Qed.

(** Rounding respects equality of rationals. *)
Lemma Qround_digits_comp (x y : Q) (n : Z) :
  x == y -> Qround_digits x n = Qround_digits y n.
Proof.
  intros E. unfold Qround_digits. f_equal. f_equal. apply round_half_even_comp.
  rewrite E. reflexivity.
Qed.

(** A figure with [n] decimal places is its own rounding. *)
Lemma Qround_digits_fixed (k : Z) (n : Z) :
  Qround_digits (inject_Z k / 10 ^ n) n == inject_Z k / 10 ^ n.
Proof.
  unfold Qround_digits. pose proof (ten_power_pos n) as Hp.
  assert (E : inject_Z k / 10 ^ n * 10 ^ n == inject_Z k).
  { field. intros Hz. rewrite Hz in Hp. discriminate Hp. }
  rewrite (round_half_even_comp _ _ E), round_half_even_inject_Z. reflexivity.
Qed.

(** ** What each outcome of [select_cable] means *)

(** A size the loop passed over does not meet both criteria. *)
Lemma passed_over_not_qualifies mat m (cur len d mx V s : Q) :
  In s catalog -> In m method_keys ->
  try_size (current_ratings mat) (voltage_drop_factors mat) m cur len d mx V s = Return None ->
  ~ qualifies mat m cur len d mx V s.
Proof.
  intros Hs Hm Htry (base & vd & Hb & Hv & Hcap & Hdrop).
  rewrite (try_size_exact _ _ cur len d mx V _ _ _ Hb Hv) in Htry.
  apply Qle_bool_iff in Hcap. apply Qle_bool_iff in Hdrop. rewrite Hcap, Hdrop in Htry.
  destruct (Qeq_bool (V * 1000) 0); [discriminate Htry |].
  destruct (Qeq_bool len 0); discriminate Htry.
Qed.

(** With a non-zero length and voltage the body raises nothing at a
    catalog size. *)
Lemma try_size_never_raises mat m (cur len d mx V s : Q) e :
  In s catalog -> In m method_keys -> ~ V == 0 -> ~ len == 0 ->
  try_size (current_ratings mat) (voltage_drop_factors mat) m cur len d mx V s <> Raise e.
Proof.
  intros Hs Hm HV Hlen.
  destruct (catalog_entry mat _ _ Hs Hm) as (base & vd & Hb & Hv & _ & _).
  rewrite (try_size_exact _ _ cur len d mx V _ _ _ Hb Hv).
  rewrite (voltage_scaled_nonzero _ HV).
  assert (Hl : Qeq_bool len 0 = false).
  { destruct (Qeq_bool len 0) eqn:E; [| reflexivity]. apply Qeq_bool_iff in E. contradiction. }
  rewrite Hl.
  destruct (Qle_bool cur (base * d)); [| discriminate].
  destruct (Qle_bool _ mx); discriminate.
Qed.

(** In the ascending catalog, a size smaller than [s] stands before it. *)
Lemma smaller_size_stands_before (pre : list Q) (s : Q) (post : list Q) (s' : Q) :
  catalog = pre ++ s :: post -> In s' catalog -> s' < s -> In s' pre.
Proof.
  intros Hsplit Hin Hlt.
  pose proof catalog_ascending as Hasc. rewrite Hsplit in Hasc.
  apply ascending_split in Hasc. destruct Hasc as [_ Hpost].
  rewrite Hsplit in Hin. apply in_app_or in Hin.
  destruct Hin as [Hin | [Heq | Hin]]; [exact Hin | |].
  - subst s'. exfalso. exact (Qlt_irrefl _ Hlt).
  - rewrite Forall_forall in Hpost. specialize (Hpost _ Hin). exfalso. lra.
Qed.

(** ** How the table entries are ordered *)

Lemma rating_of_entry mat m (s base : Q) :
  base_capacity_at (current_ratings mat) m s = Some base -> rating_of mat m s = base.
Proof. unfold rating_of. intros ->. reflexivity. Qed.

Lemma factor_of_entry mat (s vd : Q) :
  lookup eqb (voltage_drop_factors mat) s = Some vd -> factor_of mat s = vd.
Proof. unfold factor_of. intros ->. reflexivity. Qed.

(** Both criteria, read on the rating and the factor of a catalog size. *)
Lemma qualifies_iff mat m (cur len d mx V s : Q) :
  In s catalog -> In m method_keys ->
  (qualifies mat m cur len d mx V s <->
   cur <= rating_of mat m s * d /\
   voltage_drop_percent_of (factor_of mat s) cur len V <= mx).
Proof.
  intros Hs Hm. destruct (catalog_entry mat _ _ Hs Hm) as (base & vd & Hb & Hv & _ & _).
  rewrite (rating_of_entry _ _ _ _ Hb), (factor_of_entry _ _ _ Hv). split.
  - intros (base' & vd' & Hb' & Hv' & Hcap & Hdrop).
    assert (base' = base) by congruence. assert (vd' = vd) by congruence. subst. auto.
  - intros [Hcap Hdrop]. exists base, vd. auto.
Qed.

Lemma rating_and_factor_positive mat m (s : Q) :
  In s catalog -> In m method_keys -> 0 < rating_of mat m s /\ 0 < factor_of mat s.
Proof.
  intros Hs Hm. destruct (catalog_entry mat _ _ Hs Hm) as (base & vd & Hb & Hv & Hbp & Hvp).
  rewrite (rating_of_entry _ _ _ _ Hb), (factor_of_entry _ _ _ Hv). auto.
Qed.

(** Along the catalog the ratings rise and the voltage-drop factors fall,
    under every installation method and for both materials. *)
Lemma larger_size_rates_higher mat m (s s' : Q) :
  In s catalog -> In s' catalog -> In m method_keys -> s < s' ->
  rating_of mat m s < rating_of mat m s' /\ factor_of mat s' < factor_of mat s.
Proof.
  intros Hs Hs' Hm Hlt.
  assert (H : sizes_ordered mat = true) by (destruct mat; vm_compute; reflexivity).
  unfold sizes_ordered in H. rewrite forallb_forall in H. specialize (H s Hs).
  rewrite forallb_forall in H. specialize (H s' Hs').
  apply Qltb_lt in Hlt. rewrite Hlt in H. apply andb_true_iff in H. destruct H as [Hf Hr].
  rewrite forallb_forall in Hr. specialize (Hr m Hm).
  rewrite <- !Qltb_lt. auto.
Qed.

(** Size for size, copper is rated at least as high as aluminium and
    drops no more voltage. *)
Lemma copper_outrates_aluminium m (s : Q) :
  In s catalog -> In m method_keys ->
  rating_of Aluminium m s <= rating_of Copper m s /\
  factor_of Copper s <= factor_of Aluminium s.
Proof.
  intros Hs Hm.
  assert (H : materials_ordered = true) by (vm_compute; reflexivity).
  unfold materials_ordered in H. rewrite forallb_forall in H. specialize (H s Hs).
  apply andb_true_iff in H. destruct H as [Hf Hr].
  rewrite forallb_forall in Hr. specialize (Hr m Hm).
  rewrite <- !Qle_bool_iff. auto.
Qed.

(** Size for size, a cable is rated lowest in a pipe or duct, higher in
    the ground, highest in free air. *)
Lemma methods_rate_in_order mat (s : Q) :
  In s catalog ->
  rating_of mat "pipe_duct" s <= rating_of mat "ground" s /\
  rating_of mat "ground" s <= rating_of mat "free_air" s.
Proof.
  intros Hs.
  assert (H : methods_ordered mat = true) by (destruct mat; vm_compute; reflexivity).
  unfold methods_ordered in H. rewrite forallb_forall in H. specialize (H s Hs).
  apply andb_true_iff in H. rewrite <- !Qle_bool_iff. exact H.
Qed.

(** The percentage follows the product of factor, current and length. *)
Lemma voltage_drop_percent_le (vd cur len vd' cur' len' V : Q) :
  0 < V -> vd * cur * len <= vd' * cur' * len' ->
  voltage_drop_percent_of vd cur len V <= voltage_drop_percent_of vd' cur' len' V.
Proof.
  intros HV Hp. unfold voltage_drop_percent_of, Qdiv.
  apply Qmult_le_compat_r; [| lra].
  apply Qmult_le_compat_r; [exact Hp |].
  apply Qinv_le_0_compat. lra.
Qed.

Lemma product_le (a b c a' b' c' : Q) :
  0 <= a -> a <= a' -> 0 <= b -> b <= b' -> 0 <= c -> c <= c' ->
  a * b * c <= a' * b' * c'.
Proof.
  intros. apply Qmult_le_compat_nonneg; [split | split; assumption].
  - apply Qmult_le_0_compat; assumption.
  - apply Qmult_le_compat_nonneg; split; assumption.
Qed.

(** ** Qualifying is closed upwards *)

(** For a non-negative current, length and derating factor and a positive
    voltage, a catalog size larger than one that qualifies qualifies too:
    the size selected is the smallest of a final segment of the catalog. *)
Theorem larger_size_qualifies_too
    (mat : material) (m : string) (cur len d mx V s s' : Q) :
  In s catalog -> In s' catalog -> In m method_keys ->
  0 <= cur -> 0 <= len -> 0 <= d -> 0 < V ->
  s <= s' ->
  qualifies mat m cur len d mx V s ->
  qualifies mat m cur len d mx V s'.
Proof.
  intros Hs Hs' Hm Hcur Hlen Hd HV Hle Hq.
  apply Qle_lt_or_eq in Hle. destruct Hle as [Hlt | Heq].
  - apply (qualifies_iff mat m cur len d mx V s Hs Hm) in Hq. destruct Hq as [Hcap Hdrop].
    apply (qualifies_iff mat m cur len d mx V s' Hs' Hm).
    destruct (larger_size_rates_higher mat m s s' Hs Hs' Hm Hlt) as [Hr Hf].
    destruct (rating_and_factor_positive mat m s' Hs' Hm) as [_ Hfp].
    split.
    + apply Qle_trans with (rating_of mat m s * d); [exact Hcap |].
      apply Qmult_le_compat_r; [apply Qlt_le_weak; exact Hr | exact Hd].
    + apply Qle_trans with (voltage_drop_percent_of (factor_of mat s) cur len V);
        [| exact Hdrop].
      apply voltage_drop_percent_le; [exact HV |].
      apply product_le; lra.
  - (* equal as rationals: the same catalog entry *)
    destruct (Qlt_le_dec s s') as [Hlt | Hge]; [exfalso; lra |].
    destruct (Qlt_le_dec s' s) as [Hlt | _]; [exfalso; lra |].
    assert (E : s' = s).
    { pose proof catalog_ascending as Hasc.
      destruct (in_split _ _ Hs) as (pre & post & Hsplit).
      rewrite Hsplit in Hasc. apply ascending_split in Hasc. destruct Hasc as [Hpre Hpost].
      rewrite Hsplit in Hs'. apply in_app_or in Hs'.
      rewrite Forall_forall in Hpre, Hpost.
      destruct Hs' as [Hin | [E | Hin]]; [| symmetry; exact E |].
      - specialize (Hpre _ Hin). exfalso. lra.
      - specialize (Hpost _ Hin). exfalso. lra. }
    rewrite E. exact Hq.
Qed.

(** 16 sq mm qualifies for 63 A over 50 m, hence so does 400 sq mm. *)
Lemma larger_size_qualifies_too_witness :
  In 400 catalog /\ qualifies Copper "ground" 63 50 1 3 415 400.
Proof.
  split; [simpl; auto 20 |].
  apply (larger_size_qualifies_too Copper "ground" 63 50 1 3 415 16 400).
  - simpl. auto 10.
  - simpl. auto 20.
  - simpl. auto.
  - intros H. vm_compute in H. discriminate H.
  - intros H. vm_compute in H. discriminate H.
  - intros H. vm_compute in H. discriminate H.
  - reflexivity.
  - intros H. vm_compute in H. discriminate H.
  - exists 85, 2.75. repeat split; try reflexivity; intros H; vm_compute in H; discriminate H.
Defined.

(** ** Requests that are easier to serve never select a larger size *)

(** If a catalog size qualifies for a request, the request is served,
    with that size or a smaller one. *)
Lemma first_qualifying_no_larger
    (cur : Q) (ct im : string) (len d mx V : Q) (mat : material) (s : Q) :
  material_of ct = Some mat ->
  In (lower im) method_keys ->
  ~ len == 0 -> ~ V == 0 ->
  In s catalog ->
  qualifies mat (lower im) cur len d mx V s ->
  exists r s',
    select_cable cur ct im len d mx V = Return r /\ size r = Some s' /\ s' <= s.
Proof.
  intros Hmat Hm Hlen HV Hs Hq.
  rewrite (select_cable_scan cur ct im len d mx V mat Hmat Hm).
  destruct (scan_sizes_run (current_ratings mat) (voltage_drop_factors mat) (lower im)
              cur len d mx V catalog)
    as [Hall | pre t post r Hsplit Hpre Ht | pre t post e Hsplit Hpre Ht].
  - exfalso. rewrite Forall_forall in Hall.
    exact (passed_over_not_qualifies mat (lower im) cur len d mx V s Hs Hm (Hall _ Hs) Hq).
  - exists r, t. split; [reflexivity |].
    apply try_size_selected_inv in Ht.
    destruct Ht as (base & vd & _ & _ & _ & _ & _ & _ & ->).
    split; [reflexivity |].
    destruct (Qlt_le_dec s t) as [Hlt | Hle]; [exfalso | exact Hle].
    rewrite Forall_forall in Hpre.
    apply (passed_over_not_qualifies mat (lower im) cur len d mx V s Hs Hm); [| exact Hq].
    apply Hpre. exact (smaller_size_stands_before pre t post s Hsplit Hs Hlt).
  - exfalso.
    apply (try_size_never_raises mat (lower im) cur len d mx V t e); try assumption.
    rewrite Hsplit. apply in_or_app. right. left. reflexivity.
Qed.

(** What a [Selected] record tells, in the terms of [qualifies]. *)
Lemma selected_size_qualifies
    (cur : Q) (ct im : string) (len d mx V : Q) (r : selection) (s : Q) :
  select_cable cur ct im len d mx V = Return r ->
  size r = Some s ->
  exists mat,
    material_of ct = Some mat /\ In (lower im) method_keys /\
    In s catalog /\ ~ len == 0 /\ ~ V == 0 /\
    qualifies mat (lower im) cur len d mx V s.
Proof.
  intros Hret Hsize.
  destruct (select_cable_Return_cases _ _ _ _ _ _ _ _ Hret)
    as (mat & Hmat & Hm & [-> | Hsel]); [discriminate Hsize |].
  destruct Hsel as (pre & t & post & base & vd & Hsplit & _ & Hb & Hv & Hcap & Hdrop
                    & Hlen & HV & ->).
  simpl in Hsize. injection Hsize as ->.
  exists mat. repeat split; try assumption.
  - rewrite Hsplit. apply in_or_app. right. left. reflexivity.
  - exists base, vd. auto.
Qed.



(** A shorter route. With a non-negative current and a positive voltage,
    a request that is served is still served over a shorter (non-zero)
    route, with the same size or a smaller one. *)
Theorem shorter_route_is_served
    (cur : Q) (ct im : string) (len1 len2 d mx V : Q) (r2 : selection) (s2 : Q) :
  0 < len1 -> len1 <= len2 -> 0 <= cur -> 0 < V ->
  select_cable cur ct im len2 d mx V = Return r2 -> size r2 = Some s2 ->
  exists r1 s1,
    select_cable cur ct im len1 d mx V = Return r1 /\ size r1 = Some s1 /\ s1 <= s2.
Proof.
  intros Hpos Hle Hcur HV Hret Hsize.
  destruct (selected_size_qualifies _ _ _ _ _ _ _ _ _ Hret Hsize)
    as (mat & Hmat & Hm & Hs & _ & HV0 & Hq).
  apply (first_qualifying_no_larger cur ct im len1 d mx V mat s2); try assumption;
    [lra |].
  apply (qualifies_iff mat (lower im) cur len2 d mx V s2 Hs Hm) in Hq.
  destruct Hq as [Hcap Hdrop].
  apply (qualifies_iff mat (lower im) cur len1 d mx V s2 Hs Hm).
  destruct (rating_and_factor_positive mat (lower im) s2 Hs Hm) as [_ Hfp].
  split; [exact Hcap |].
  apply Qle_trans with (voltage_drop_percent_of (factor_of mat s2) cur len2 V); [| exact Hdrop].
  apply voltage_drop_percent_le; [exact HV |]. apply product_le; lra.
Qed.

Lemma shorter_route_is_served_witness :
  exists r1 s1,
    select_cable 63 "Cu" "ground" 10 1 3 415 = Return r1 /\ size r1 = Some s1 /\ s1 <= 16.
Proof.
  apply (shorter_route_is_served 63 "Cu" "ground" 10 50 1 3 415
           (selected 16 85 2.75 63 50 1 415) 16).
  - reflexivity.
  - intros H. vm_compute in H. discriminate H.
  - intros H. vm_compute in H. discriminate H.
  - reflexivity.
  - vm_compute. reflexivity.
  - reflexivity.
Defined.

(** A wider limit. A request that is served is still served when the
    voltage-drop limit is raised, with the same size or a smaller one;
    nothing is asked of the other parameters. *)
Theorem wider_limit_is_served
    (cur : Q) (ct im : string) (len d mx1 mx2 V : Q) (r1 : selection) (s1 : Q) :
  mx1 <= mx2 ->
  select_cable cur ct im len d mx1 V = Return r1 -> size r1 = Some s1 ->
  exists r2 s2,
    select_cable cur ct im len d mx2 V = Return r2 /\ size r2 = Some s2 /\ s2 <= s1.
Proof.
  intros Hmx Hret Hsize.
  destruct (selected_size_qualifies _ _ _ _ _ _ _ _ _ Hret Hsize)
    as (mat & Hmat & Hm & Hs & Hlen0 & HV0 & (base & vd & Hb & Hv & Hcap & Hdrop)).
  apply (first_qualifying_no_larger cur ct im len d mx2 V mat s1); try assumption.
  exists base, vd. repeat split; try assumption. lra.
Qed.

Lemma wider_limit_is_served_witness :
  exists r2 s2,
    select_cable 63 "Cu" "ground" 50 1 5 415 = Return r2 /\ size r2 = Some s2 /\ s2 <= 16.
Proof.
  apply (wider_limit_is_served 63 "Cu" "ground" 50 1 3 5 415
           (selected 16 85 2.75 63 50 1 415) 16).
  - intros H. vm_compute in H. discriminate H.
  - vm_compute. reflexivity.
  - reflexivity.
Defined.

(** Less derating. A request that is served is still served under a
    larger derating factor, with the same size or a smaller one. *)
Theorem larger_derating_factor_is_served
    (cur : Q) (ct im : string) (len d1 d2 mx V : Q) (r1 : selection) (s1 : Q) :
  d1 <= d2 ->
  select_cable cur ct im len d1 mx V = Return r1 -> size r1 = Some s1 ->
  exists r2 s2,
    select_cable cur ct im len d2 mx V = Return r2 /\ size r2 = Some s2 /\ s2 <= s1.
Proof.
  intros Hd Hret Hsize.
  destruct (selected_size_qualifies _ _ _ _ _ _ _ _ _ Hret Hsize)
    as (mat & Hmat & Hm & Hs & Hlen0 & HV0 & Hq).
  apply (first_qualifying_no_larger cur ct im len d2 mx V mat s1); try assumption.
  apply (qualifies_iff mat (lower im) cur len d1 mx V s1 Hs Hm) in Hq. destruct Hq as [Hcap Hdrop].
  apply (qualifies_iff mat (lower im) cur len d2 mx V s1 Hs Hm).
  destruct (rating_and_factor_positive mat (lower im) s1 Hs Hm) as [Hrp _].
  split; [| exact Hdrop].
  apply Qle_trans with (rating_of mat (lower im) s1 * d1); [exact Hcap |].
  rewrite !(Qmult_comm (rating_of mat (lower im) s1)).
  apply Qmult_le_compat_r; [exact Hd | apply Qlt_le_weak; exact Hrp].
Qed.

Lemma larger_derating_factor_is_served_witness :
  exists r2 s2,
    select_cable 63 "Cu" "ground" 50 1 3 415 = Return r2 /\ size r2 = Some s2 /\ s2 <= 25.
Proof.
  apply (larger_derating_factor_is_served 63 "Cu" "ground" 50 0.7 1 3 415
           (selected 25 111 1.75 63 50 0.7 415) 25).
  - intros H. vm_compute in H. discriminate H.
  - vm_compute. reflexivity.
  - reflexivity.
Defined.

(** Copper for aluminium. For a non-negative current, length and
    derating factor and a positive voltage, a request served in aluminium
    is served in copper, with the same size or a smaller one. *)
Theorem copper_no_larger_than_aluminium
    (cur : Q) (ct_al ct_cu im : string) (len d mx V : Q) (r_al : selection) (s_al : Q) :
  material_of ct_al = Some Aluminium ->
  material_of ct_cu = Some Copper ->
  0 <= cur -> 0 <= len -> 0 <= d -> 0 < V ->
  select_cable cur ct_al im len d mx V = Return r_al -> size r_al = Some s_al ->
  exists r_cu s_cu,
    select_cable cur ct_cu im len d mx V = Return r_cu /\
    size r_cu = Some s_cu /\ s_cu <= s_al.
Proof.
  intros Hal Hcu Hcur Hlen Hd HV Hret Hsize.
  destruct (selected_size_qualifies _ _ _ _ _ _ _ _ _ Hret Hsize)
    as (mat & Hmat & Hm & Hs & Hlen0 & HV0 & Hq).
  assert (mat = Aluminium) by congruence. subst mat.
  apply (first_qualifying_no_larger cur ct_cu im len d mx V Copper s_al); try assumption.
  apply (qualifies_iff Aluminium (lower im) cur len d mx V s_al Hs Hm) in Hq.
  destruct Hq as [Hcap Hdrop].
  apply (qualifies_iff Copper (lower im) cur len d mx V s_al Hs Hm).
  destruct (copper_outrates_aluminium (lower im) s_al Hs Hm) as [Hr Hf].
  destruct (rating_and_factor_positive Copper (lower im) s_al Hs Hm) as [_ Hfp].
  split.
  - apply Qle_trans with (rating_of Aluminium (lower im) s_al * d); [exact Hcap |].
    apply Qmult_le_compat_r; assumption.
  - apply Qle_trans with (voltage_drop_percent_of (factor_of Aluminium s_al) cur len V);
      [| exact Hdrop].
    apply voltage_drop_percent_le; [exact HV |]. apply product_le; lra.
Qed.

(** 63 A over 50 m: 25 sq mm in aluminium, no more than that in copper. *)
Lemma copper_no_larger_than_aluminium_witness :
  exists r_cu s_cu,
    select_cable 63 "Cu" "ground" 50 1 3 415 = Return r_cu /\
    size r_cu = Some s_cu /\ s_cu <= 25.
Proof.
  apply (copper_no_larger_than_aluminium 63 "Al" "Cu" "ground" 50 1 3 415
           (selected 25 82 2.80 63 50 1 415) 25).
  - reflexivity.
  - reflexivity.
  - intros H. vm_compute in H. discriminate H.
  - intros H. vm_compute in H. discriminate H.
  - intros H. vm_compute in H. discriminate H.
  - reflexivity.
  - vm_compute. reflexivity.
  - reflexivity.
Defined.

(** A cooler installation. With a non-negative derating factor, a request
    served in a pipe or duct is served in the ground, and one served in
    the ground is served in free air, with the same size or a smaller
    one. *)
Theorem cooler_method_is_served
    (cur : Q) (ct im1 im2 : string) (len d mx V : Q) (r1 : selection) (s1 : Q) :
  (lower im1 = "pipe_duct" /\ lower im2 = "ground") \/
  (lower im1 = "ground" /\ lower im2 = "free_air") \/
  (lower im1 = "pipe_duct" /\ lower im2 = "free_air") ->
  0 <= d ->
  select_cable cur ct im1 len d mx V = Return r1 -> size r1 = Some s1 ->
  exists r2 s2,
    select_cable cur ct im2 len d mx V = Return r2 /\ size r2 = Some s2 /\ s2 <= s1.
Proof.
  intros Hmethods Hd Hret Hsize.
  destruct (selected_size_qualifies _ _ _ _ _ _ _ _ _ Hret Hsize)
    as (mat & Hmat & Hm1 & Hs & Hlen0 & HV0 & Hq).
  assert (Hm2 : In (lower im2) method_keys).
  { destruct Hmethods as [[_ E] | [[_ E] | [_ E]]]; rewrite E; simpl; auto. }
  apply (first_qualifying_no_larger cur ct im2 len d mx V mat s1); try assumption.
  apply (qualifies_iff mat (lower im1) cur len d mx V s1 Hs Hm1) in Hq.
  destruct Hq as [Hcap Hdrop].
  apply (qualifies_iff mat (lower im2) cur len d mx V s1 Hs Hm2).
  split; [| exact Hdrop].
  apply Qle_trans with (rating_of mat (lower im1) s1 * d); [exact Hcap |].
  apply Qmult_le_compat_r; [| exact Hd].
  destruct (methods_rate_in_order mat s1 Hs) as [Hpg Hgf].
  destruct Hmethods as [[E1 E2] | [[E1 E2] | [E1 E2]]]; rewrite E1, E2;
    [exact Hpg | exact Hgf | exact (Qle_trans _ _ _ Hpg Hgf)].
Qed.

(** 63 A over 50 m in copper: 16 sq mm in a pipe or duct, no more than
    that in free air. *)
Lemma cooler_method_is_served_witness :
  exists r2 s2,
    select_cable 63 "Cu" "Free_Air" 50 1 3 415 = Return r2 /\
    size r2 = Some s2 /\ s2 <= 16.
Proof.
  apply (cooler_method_is_served 63 "Cu" "pipe_duct" "Free_Air" 50 1 3 415
           (selected 16 76 2.75 63 50 1 415) 16).
  - right. right. split; reflexivity.
  - intros H. vm_compute in H. discriminate H.
  - vm_compute. reflexivity.
  - reflexivity.
Defined.

(** ** The figures of the record *)

Lemma hundredth_is_fixed (x : Q) :
  (exists k : Z, x == inject_Z k / 100) -> Qround_digits x 2 == x.
Proof.
  intros (k & E).
  rewrite (Qround_digits_comp x (inject_Z k / 10 ^ 2) 2 E).
  rewrite Qround_digits_fixed. symmetry. exact E.
Qed.

Lemma rounding_keeps_hundredths_below (x y : Q) :
  (exists k : Z, x == inject_Z k / 100) -> x <= y -> x <= Qround_digits y 2.
Proof.
  intros Hgrid Hle. rewrite <- (hundredth_is_fixed x Hgrid) at 1.
  apply Qround_digits_mono. exact Hle.
Qed.

(** A current given in hundredths of an ampere (as [calculate_current]
    returns it for a power) is never above the capacity figure of the
    record: here rounding does not break the capacity invariant. *)
Theorem capacity_figure_covers_hundredths_current
    (cur : Q) (ct im : string) (len d mx V : Q) (r : selection) :
  (exists k : Z, cur == inject_Z k / 100) ->
  select_cable cur ct im len d mx V = Return r ->
  status r = [Text "Selected"] ->
  exists cap, actual_capacity r = Some cap /\ cur <= cap.
Proof.
  intros Hgrid Hret Hstatus.
  destruct (select_cable_Return_cases _ _ _ _ _ _ _ _ Hret)
    as (mat & _ & _ & [-> | Hsel]); [discriminate Hstatus |].
  destruct Hsel as (pre & s & post & base & vd & _ & _ & _ & _ & Hcap & _ & _ & _ & ->).
  exists (Qround_digits (base * d) 2). split; [reflexivity |].
  apply rounding_keeps_hundredths_below; assumption.
Qed.

(** 21.80 A with a derating of 0.8075: 2.5 sq mm, derated to 21.8025 A,
    is returned with a capacity figure of 21.8 A. *)
Lemma capacity_figure_covers_hundredths_current_witness :
  exists cap,
    actual_capacity (selected 2.5 27 17.8 21.80 10 0.8075 415) = Some cap /\ 21.80 <= cap.
Proof.
  apply (capacity_figure_covers_hundredths_current 21.80 "Cu" "ground" 10 0.8075 3 415
           (selected 2.5 27 17.8 21.80 10 0.8075 415)).
  - exists 2180%Z. reflexivity.
  - vm_compute. reflexivity.
  - reflexivity.
Defined.

(** A limit given in hundredths of a percent (as the 0.5-step slider of
    the application gives it) is never below the voltage-drop figure of
    the record. *)
Theorem voltage_drop_figure_within_hundredths_limit
    (cur : Q) (ct im : string) (len d mx V : Q) (r : selection) :
  (exists k : Z, mx == inject_Z k / 100) ->
  select_cable cur ct im len d mx V = Return r ->
  status r = [Text "Selected"] ->
  exists drop, voltage_drop r = Some drop /\ drop <= mx.
Proof.
  intros Hgrid Hret Hstatus.
  destruct (select_cable_Return_cases _ _ _ _ _ _ _ _ Hret)
    as (mat & _ & _ & [-> | Hsel]); [discriminate Hstatus |].
  destruct Hsel as (pre & s & post & base & vd & _ & _ & _ & _ & _ & Hdrop & _ & _ & ->).
  exists (Qround_digits (voltage_drop_percent_of vd cur len V) 2). split; [reflexivity |].
  rewrite <- (hundredth_is_fixed mx Hgrid).
  apply Qround_digits_mono. exact Hdrop.
Qed.

Lemma voltage_drop_figure_within_hundredths_limit_witness :
  exists drop,
    voltage_drop (selected 16 85 2.75 63 50 1 415) = Some drop /\ drop <= 3.
Proof.
  apply (voltage_drop_figure_within_hundredths_limit 63 "Cu" "ground" 50 1 3 415
           (selected 16 85 2.75 63 50 1 415)).
  - exists 300%Z. reflexivity.
  - vm_compute. reflexivity.
  - reflexivity.
Defined.

(** ** Letter case *)

Lemma upper_char_upper_char (c : ascii) : upper_char (upper_char c) = upper_char c.
Proof. destruct c as [[] [] [] [] [] [] [] []]; reflexivity. Qed.

Lemma upper_char_lower_char (c : ascii) : upper_char (lower_char c) = upper_char c.
Proof. destruct c as [[] [] [] [] [] [] [] []]; reflexivity. Qed.

Lemma lower_char_lower_char (c : ascii) : lower_char (lower_char c) = lower_char c.
Proof. destruct c as [[] [] [] [] [] [] [] []]; reflexivity. Qed.

Lemma lower_char_upper_char (c : ascii) : lower_char (upper_char c) = lower_char c.
Proof. destruct c as [[] [] [] [] [] [] [] []]; reflexivity. Qed.

Lemma upper_upper (s : string) : upper (upper s) = upper s.
Proof. induction s as [| c s IH]; simpl; [| rewrite upper_char_upper_char, IH]; reflexivity. Qed.

Lemma upper_lower (s : string) : upper (lower s) = upper s.
Proof. induction s as [| c s IH]; simpl; [| rewrite upper_char_lower_char, IH]; reflexivity. Qed.

Lemma lower_lower (s : string) : lower (lower s) = lower s.
Proof. induction s as [| c s IH]; simpl; [| rewrite lower_char_lower_char, IH]; reflexivity. Qed.

Lemma lower_upper (s : string) : lower (upper s) = lower s.
Proof. induction s as [| c s IH]; simpl; [| rewrite lower_char_upper_char, IH]; reflexivity. Qed.

(** Changing the case of an ASCII string leaves it an ASCII string. *)
Lemma upper_char_ascii (c : ascii) :
  (nat_of_ascii c <? 128)%nat = true -> (nat_of_ascii (upper_char c) <? 128)%nat = true.
Proof. destruct c as [[] [] [] [] [] [] [] []]; intros H; try discriminate H; reflexivity. Qed.

Lemma lower_char_ascii (c : ascii) :
  (nat_of_ascii c <? 128)%nat = true -> (nat_of_ascii (lower_char c) <? 128)%nat = true.
Proof. destruct c as [[] [] [] [] [] [] [] []]; intros H; try discriminate H; reflexivity. Qed.

Lemma upper_is_ascii (s : string) : is_ascii s = true -> is_ascii (upper s) = true.
Proof.
  unfold is_ascii. induction s as [| c s IH]; simpl; [reflexivity |].
  intros H. apply andb_true_iff in H. destruct H as [Hc Hs].
  rewrite (upper_char_ascii c Hc). exact (IH Hs).
Qed.

Lemma lower_is_ascii (s : string) : is_ascii s = true -> is_ascii (lower s) = true.
Proof.
  unfold is_ascii. induction s as [| c s IH]; simpl; [reflexivity |].
  intros H. apply andb_true_iff in H. destruct H as [Hc Hs].
  rewrite (lower_char_ascii c Hc). exact (IH Hs).
Qed.

(** In any arithmetic, on a conductor type and an installation method
    written in ASCII characters (the strings on which [upper] and [lower]
    are [str.upper] and [str.lower]), [select_cable] does not tell the
    letter case: the call gives the same result, value or exception,
    with both strings in upper case, or both in lower case, and these
    are ASCII strings again. *)
Theorem select_cable_ignores_ascii_case {F : Type} {num : Number F}
    (cur : F) (ct im : string) (len d mx V : F) :
  is_ascii ct = true ->
  is_ascii im = true ->
  (is_ascii (upper ct) = true /\ is_ascii (upper im) = true /\
   select_cable cur (upper ct) (upper im) len d mx V = select_cable cur ct im len d mx V) /\
  (is_ascii (lower ct) = true /\ is_ascii (lower im) = true /\
   select_cable cur (lower ct) (lower im) len d mx V = select_cable cur ct im len d mx V).
Proof.
  intros Hct Him.
  split; (split; [| split]);
    auto using upper_is_ascii, lower_is_ascii;
    rewrite !select_cable_eq; unfold material_of.
  - rewrite upper_upper, lower_upper. reflexivity.
  - rewrite upper_lower, lower_lower. reflexivity.
Qed.

(** Aluminium in a pipe or duct, spelled in mixed case, in binary64. *)
Lemma select_cable_ignores_ascii_case_witness :
  (is_ascii (upper "aL") = true /\ is_ascii (upper "Pipe_Duct") = true /\
   select_cable (F:=PrimFloat.float) (lit 40) (upper "aL") (upper "Pipe_Duct")
       (lit 25) (lit 0.9) (lit 3) (lit 415) =
     select_cable (lit 40) "aL" "Pipe_Duct" (lit 25) (lit 0.9) (lit 3) (lit 415)) /\
  (is_ascii (lower "aL") = true /\ is_ascii (lower "Pipe_Duct") = true /\
   select_cable (F:=PrimFloat.float) (lit 40) (lower "aL") (lower "Pipe_Duct")
       (lit 25) (lit 0.9) (lit 3) (lit 415) =
     select_cable (lit 40) "aL" "Pipe_Duct" (lit 25) (lit 0.9) (lit 3) (lit 415)).
Proof.
  apply (select_cable_ignores_ascii_case (F:=PrimFloat.float) (lit 40) "aL" "Pipe_Duct"
           (lit 25) (lit 0.9) (lit 3) (lit 415)); reflexivity.
Defined.

(** ** More on [calculate_current] *)

(** In any arithmetic, a load in HP gives what the same load converted to
    kW gives: the same current, or the same exception. *)
Theorem horsepower_is_converted_to_kilowatts
    {F : Type} {num : Number F} {ms : MathSqrt F} (load V pf : F) :
  calculate_current load "HP" V pf = calculate_current (mul load (lit 0.746)) "kW" V pf.
Proof.
  unfold calculate_current.
  change (str_in "HP" ["kW"; "HP"; "Amps"]) with true.
  change (str_in "kW" ["kW"; "HP"; "Amps"]) with true.
  change (String.eqb "HP" "Amps") with false.
  change (String.eqb "kW" "Amps") with false.
  change (String.eqb "HP" "HP") with true.
  change (String.eqb "kW" "HP") with false.
  reflexivity.
Qed.

Section CurrentOrder.

Context {ms : MathSqrt Q}.

(** The exact current of a power, before rounding. *)
Lemma power_divisor_positive (V pf : Q) :
  valid_voltage V -> valid_power_factor pf -> 0 < math_sqrt 3 -> 0 < power_divisor V pf.
Proof.
  intros HV [Hpos _] Hsqrt. unfold power_divisor.
  assert (HVpos : 0 < V) by (destruct HV as [E | E]; rewrite E; reflexivity).
  destruct (Qeq_bool V 230).
  - apply Qmult_lt_0_compat; assumption.
  - apply Qmult_lt_0_compat; [apply Qmult_lt_0_compat |]; assumption.
Qed.

Lemma positive_is_nonzero (x : Q) : 0 < x -> ~ x == 0.
Proof. intros H E. rewrite E in H. exact (Qlt_irrefl _ H). Qed.

(** A larger load never gives a smaller current: for a power in kW or in
    HP, on a valid voltage and power factor and a positive [sqrt(3)],
    [calculate_current] is monotone in the load. *)
Theorem calculate_current_monotone_in_load
    (load1 load2 : Q) (load_type : string) (V pf : Q) :
  load_type = "kW" \/ load_type = "HP" ->
  valid_voltage V -> valid_power_factor pf -> 0 < math_sqrt 3 ->
  load1 <= load2 ->
  exists I1 I2,
    calculate_current load1 load_type V pf = Return I1 /\
    calculate_current load2 load_type V pf = Return I2 /\
    I1 <= I2.
Proof.
  intros Htype HV Hpf Hsqrt Hle.
  pose proof (power_divisor_positive V pf HV Hpf Hsqrt) as Hdiv.
  pose proof (positive_is_nonzero _ Hsqrt) as Hnz.
  assert (Hinv : 0 <= / power_divisor V pf) by (apply Qlt_le_weak, Qinv_lt_0_compat, Hdiv).
  destruct Htype as [-> | ->].
  - exists (Qround_digits (load1 * 1000 / power_divisor V pf) 2),
           (Qround_digits (load2 * 1000 / power_divisor V pf) 2).
    split; [exact (calculate_current_formula load1 false V pf HV Hpf Hnz) |].
    split; [exact (calculate_current_formula load2 false V pf HV Hpf Hnz) |].
    apply Qround_digits_mono. unfold Qdiv.
    apply Qmult_le_compat_r; [| exact Hinv]. lra.
  - exists (Qround_digits (load1 * 0.746 * 1000 / power_divisor V pf) 2),
           (Qround_digits (load2 * 0.746 * 1000 / power_divisor V pf) 2).
    split; [exact (calculate_current_formula load1 true V pf HV Hpf Hnz) |].
    split; [exact (calculate_current_formula load2 true V pf HV Hpf Hnz) |].
    apply Qround_digits_mono. unfold Qdiv.
    apply Qmult_le_compat_r; [| exact Hinv]. lra.
Qed.

(** A better power factor never gives a larger current: for a
    non-negative power, [calculate_current] is antitone in the power
    factor. *)
Theorem calculate_current_antitone_in_power_factor
    (load : Q) (load_type : string) (V pf1 pf2 : Q) :
  load_type = "kW" \/ load_type = "HP" ->
  valid_voltage V -> valid_power_factor pf1 -> valid_power_factor pf2 ->
  0 < math_sqrt 3 ->
  0 <= load ->
  pf1 <= pf2 ->
  exists I1 I2,
    calculate_current load load_type V pf1 = Return I1 /\
    calculate_current load load_type V pf2 = Return I2 /\
    I2 <= I1.
Proof.
  intros Htype HV Hpf1 Hpf2 Hsqrt Hload Hle.
  pose proof (power_divisor_positive V pf1 HV Hpf1 Hsqrt) as Hdiv1.
  pose proof (power_divisor_positive V pf2 HV Hpf2 Hsqrt) as Hdiv2.
  pose proof (positive_is_nonzero _ Hsqrt) as Hnz.
  assert (Hdle : power_divisor V pf1 <= power_divisor V pf2).
  { unfold power_divisor.
    assert (HVpos : 0 < V) by (destruct HV as [E | E]; rewrite E; reflexivity).
    destruct (Qeq_bool V 230).
    - rewrite !(Qmult_comm V). apply Qmult_le_compat_r; [exact Hle | lra].
    - rewrite <- !Qmult_assoc, !(Qmult_comm V), !Qmult_assoc.
      rewrite !(Qmult_comm (math_sqrt 3)), <- !Qmult_assoc.
      apply Qmult_le_compat_r; [exact Hle |].
      apply Qlt_le_weak. apply Qmult_lt_0_compat; assumption. }
  assert (Hinv : / power_divisor V pf2 <= / power_divisor V pf1).
  { apply Qle_shift_inv_l; [exact Hdiv1 |].
    apply Qle_trans with (/ power_divisor V pf2 * power_divisor V pf2).
    - rewrite !(Qmult_comm (/ power_divisor V pf2)).
      apply Qmult_le_compat_r; [exact Hdle |].
      apply Qlt_le_weak, Qinv_lt_0_compat, Hdiv2.
    - apply Qle_lteq. right. field. apply positive_is_nonzero. exact Hdiv2. }
  destruct Htype as [-> | ->].
  - exists (Qround_digits (load * 1000 / power_divisor V pf1) 2),
           (Qround_digits (load * 1000 / power_divisor V pf2) 2).
    split; [exact (calculate_current_formula load false V pf1 HV Hpf1 Hnz) |].
    split; [exact (calculate_current_formula load false V pf2 HV Hpf2 Hnz) |].
    apply Qround_digits_mono. unfold Qdiv.
    rewrite !(Qmult_comm (load * 1000)).
    apply Qmult_le_compat_r; [exact Hinv | lra].
  - exists (Qround_digits (load * 0.746 * 1000 / power_divisor V pf1) 2),
           (Qround_digits (load * 0.746 * 1000 / power_divisor V pf2) 2).
    split; [exact (calculate_current_formula load true V pf1 HV Hpf1 Hnz) |].
    split; [exact (calculate_current_formula load true V pf2 HV Hpf2 Hnz) |].
    apply Qround_digits_mono. unfold Qdiv.
    rewrite !(Qmult_comm (load * 0.746 * 1000)).
    apply Qmult_le_compat_r; [exact Hinv | lra].
Qed.

End CurrentOrder.

(** 10 kW and 20 kW at 415 V, power factor 0.9. *)
Lemma calculate_current_monotone_in_load_witness :
  exists I1 I2,
    calculate_current (ms:=decimal_sqrt) 10 "kW" 415 0.9 = Return I1 /\
    calculate_current (ms:=decimal_sqrt) 20 "kW" 415 0.9 = Return I2 /\
    I1 <= I2.
Proof.
  apply (@calculate_current_monotone_in_load decimal_sqrt 10 20 "kW" 415 0.9).
  - left. reflexivity.
  - right. reflexivity.
  - split; [reflexivity | intros H; discriminate H].
  - reflexivity.
  - intros H. vm_compute in H. discriminate H.
Defined.

(** 10 HP at 230 V, power factor 0.7 and 0.95. *)
Lemma calculate_current_antitone_in_power_factor_witness :
  exists I1 I2,
    calculate_current (ms:=decimal_sqrt) 10 "HP" 230 0.7 = Return I1 /\
    calculate_current (ms:=decimal_sqrt) 10 "HP" 230 0.95 = Return I2 /\
    I2 <= I1.
Proof.
  apply (@calculate_current_antitone_in_power_factor decimal_sqrt 10 "HP" 230 0.7 0.95).
  - right. reflexivity.
  - left. reflexivity.
  - split; [reflexivity | intros H; discriminate H].
  - split; [reflexivity | intros H; discriminate H].
  - reflexivity.
  - intros H. vm_compute in H. discriminate H.
  - intros H. vm_compute in H. discriminate H.
Defined.

(** ** The two functions in sequence

    The application computes the full-load current with
    [calculate_current] and sizes the cable for it with [select_cable],
    on the same voltage. *)

Section Pipeline.

Context {ms : MathSqrt Q}.

(** What [calculate_current] returns for a power is a number of
    hundredths. *)
Lemma power_current_in_hundredths (load : Q) (load_type : string) (V pf flc : Q) :
  load_type = "kW" \/ load_type = "HP" ->
  calculate_current load load_type V pf = Return flc ->
  exists k : Z, flc == inject_Z k / 100.
Proof.
  intros Htype H. unfold calculate_current in H.
  destruct (negb (str_in load_type ["kW"; "HP"; "Amps"])); [discriminate H |].
  destruct (negb (num_in V [lit 230; lit 415])); [discriminate H |].
  destruct (negb (ltb (lit 0) pf && leb pf (lit 1))); [discriminate H |].
  assert (Hamps : String.eqb load_type "Amps" = false) by (destruct Htype; subst; reflexivity).
  rewrite Hamps in H.
  apply bind_Return_inv in H. destruct H as (current & _ & H).
  inversion H; subst flc.
  exists (round_half_even (current * 10 ^ 2)). reflexivity.
Qed.

(** For a load given as a power, the cable selected for the computed
    current is returned with a capacity figure that covers that current:
    the margin the application displays, [actual_capacity - flc], is
    never negative. *)
Theorem computed_current_is_covered
    (load : Q) (load_type : string) (V pf flc : Q)
    (ct im : string) (len d mx : Q) (r : selection) :
  load_type = "kW" \/ load_type = "HP" ->
  calculate_current load load_type V pf = Return flc ->
  select_cable flc ct im len d mx V = Return r ->
  status r = [Text "Selected"] ->
  exists cap, actual_capacity r = Some cap /\ 0 <= cap - flc.
Proof.
  intros Htype Hflc Hret Hstatus.
  pose proof (power_current_in_hundredths load load_type V pf flc Htype Hflc) as Hgrid.
  destruct (select_cable_Return_cases _ _ _ _ _ _ _ _ Hret)
    as (mat & _ & _ & [-> | Hsel]); [discriminate Hstatus |].
  destruct Hsel as (pre & s & post & base & vd & _ & _ & _ & _ & Hcap & _ & _ & _ & ->).
  exists (Qround_digits (base * d) 2). split; [reflexivity |].
  pose proof (rounding_keeps_hundredths_below flc (base * d) Hgrid Hcap). lra.
Qed.

End Pipeline.

(** 10 kW at 415 V gives 15.46 A; 2.5 sq mm, derated to 21.6 A, covers
    it. *)
Lemma computed_current_is_covered_witness :
  exists cap,
    actual_capacity (selected 2.5 27 17.8 15.46 10 0.8 415) = Some cap /\
    0 <= cap - 15.46.
Proof.
  apply (@computed_current_is_covered decimal_sqrt 10 "kW" 415 0.9 15.46
           "Cu" "ground" 10 0.8 3 (selected 2.5 27 17.8 15.46 10 0.8 415)).
  - left. reflexivity.
  - vm_compute. reflexivity.
  - vm_compute. reflexivity.
  - reflexivity.
Defined.

Section CurrentBounds.

Context {ms : MathSqrt Q}.

(** From the smallest load the form of the application accepts, 0.1 (kW,
    HP or A), the current computed is positive, whatever the valid
    voltage and power factor, for any [sqrt(3)] between 0 and 2: the
    percentage margin the application derives by dividing by the current
    does not divide by zero. *)
Theorem form_load_gives_positive_current
    (load : Q) (load_type : string) (V pf : Q) :
  In load_type ["kW"; "HP"; "Amps"] ->
  valid_voltage V -> valid_power_factor pf ->
  0 < math_sqrt 3 -> math_sqrt 3 <= 2 ->
  1 # 10 <= load ->
  exists flc, calculate_current load load_type V pf = Return flc /\ 0 < flc.
Proof.
  intros Htype HV Hpf Hsqrt Hsqrt2 Hload.
  pose proof (positive_is_nonzero _ Hsqrt) as Hnz.
  pose proof (power_divisor_positive V pf HV Hpf Hsqrt) as Hdiv.
  assert (Hdmax : power_divisor V pf <= 830).
  { unfold power_divisor. destruct Hpf as [Hpos Hone].
    destruct (Qeq_bool V 230) eqn:E.
    - apply Qeq_bool_iff in E. rewrite E. lra.
    - assert (E415 : V == 415).
      { destruct HV as [H | H]; [| exact H]. apply Qeq_bool_iff in H. congruence. }
      rewrite E415.
      apply Qle_trans with (2 * 415 * 1); [| apply Qle_lteq; right; reflexivity].
      apply Qmult_le_compat_nonneg; split; lra. }
  assert (Hquot : forall kw, 746 # 10000 <= kw -> 1 # 100 < Qround_digits (kw * 1000 / power_divisor V pf) 2).
  { intros kw Hkw.
    destruct (Qround_digits_2_near (kw * 1000 / power_divisor V pf)) as [Hlo _].
    apply Qlt_le_trans with (kw * 1000 / power_divisor V pf - (1 # 200)); [| exact Hlo].
    assert (Hge : 746 # 8300 <= kw * 1000 / power_divisor V pf).
    { apply Qle_shift_div_l; [exact Hdiv |].
      apply Qle_trans with ((746 # 8300) * 830).
      - apply Qmult_le_l; [reflexivity | exact Hdmax].
      - apply Qle_trans with ((746 # 10000) * 1000); [apply Qle_lteq; right; reflexivity |].
        apply Qmult_le_compat_r; [exact Hkw | discriminate]. }
    apply Qlt_le_trans with ((746 # 8300) - (1 # 200)); [reflexivity | lra]. }
  simpl in Htype. destruct Htype as [<- | [<- | [<- | []]]].
  - exists (Qround_digits (load * 1000 / power_divisor V pf) 2).
    split; [exact (calculate_current_formula load false V pf HV Hpf Hnz) |].
    apply Qlt_trans with (1 # 100); [reflexivity |]. apply Hquot. lra.
  - exists (Qround_digits (load * 0.746 * 1000 / power_divisor V pf) 2).
    split; [exact (calculate_current_formula load true V pf HV Hpf Hnz) |].
    apply Qlt_trans with (1 # 100); [reflexivity |]. apply Hquot. lra.
  - exists load. split; [exact (calculate_current_amps_value load V pf HV Hpf) | lra].
Qed.

End CurrentBounds.

(** The smallest load, 0.1 HP, on three phases at unit power factor. *)
Lemma form_load_gives_positive_current_witness :
  exists flc, calculate_current (ms:=decimal_sqrt) 0.1 "HP" 415 1 = Return flc /\ 0 < flc.
Proof.
  apply (@form_load_gives_positive_current decimal_sqrt 0.1 "HP" 415 1).
  - simpl. auto.
  - right. reflexivity.
  - split; [reflexivity | intros H; discriminate H].
  - reflexivity.
  - intros H. vm_compute in H. discriminate H.
  - intros H. vm_compute in H. discriminate H.
Defined.

(** * What the code returns, in its own arithmetic *)

(** ** The loop over a table with all its entries, in any arithmetic *)

Section AnyArithmetic.

Context {F : Type} {num : Number F}.
Variables (mat : material) (m : string) (sizes : list F).
Hypothesis entries :
  forall s, In s sizes ->
    exists base vd,
      base_capacity_at (current_ratings mat) m s = Some base /\
      lookup eqb (voltage_drop_factors mat) s = Some vd.
Variables (cur len d mx V : F).

Let try := try_size (current_ratings mat) (voltage_drop_factors mat) m cur len d mx V.
Let scan := scan_sizes (current_ratings mat) (voltage_drop_factors mat) m cur len d mx V.

Lemma try_returns_the_selection (s base vd : F) :
  base_capacity_at (current_ratings mat) m s = Some base ->
  lookup eqb (voltage_drop_factors mat) s = Some vd ->
  geb (mul base d) cur = true ->
  leb (voltage_drop_percent_in vd cur len V) mx = true ->
  eqb (mul V (lit 1000)) (lit 0) = false ->
  eqb len (lit 0) = false ->
  try s = Return (Some (selected s base vd cur len d V)).
Proof.
  intros Hb Hv Hcap Hdrop HV Hlen. unfold try.
  rewrite (try_size_known _ _ _ cur len d mx V _ _ _ Hb Hv).
  unfold voltage_drop_percent_in in Hdrop. rewrite Hcap, HV, Hdrop, Hlen. reflexivity.
Qed.

Lemma try_passes_over (s : F) :
  In s sizes ->
  eqb (mul V (lit 1000)) (lit 0) = false ->
  ~ passes_both mat m cur len d mx V s ->
  try s = Return None.
Proof.
  intros Hs HV Hnot. destruct (entries s Hs) as (base & vd & Hb & Hv). unfold try.
  rewrite (try_size_known _ _ _ cur len d mx V _ _ _ Hb Hv).
  destruct (geb (mul base d) cur) eqn:Hcap; [| reflexivity].
  rewrite HV.
  destruct (leb (mul (quot (mul (mul vd cur) len) (mul V (lit 1000))) (lit 100)) mx) eqn:Hdrop;
    [| reflexivity].
  exfalso. apply Hnot. exists base, vd. auto.
Qed.

Lemma passed_over_fails_a_test (s : F) :
  try s = Return None -> ~ passes_both mat m cur len d mx V s.
Proof.
  intros Htry (base & vd & Hb & Hv & Hcap & Hdrop). unfold try in Htry.
  rewrite (try_size_known _ _ _ cur len d mx V _ _ _ Hb Hv) in Htry.
  unfold voltage_drop_percent_in in Hdrop. rewrite Hcap, Hdrop in Htry.
  destruct (eqb (mul V (lit 1000)) (lit 0)); [discriminate Htry |].
  destruct (eqb len (lit 0)); discriminate Htry.
Qed.

Lemma try_raises_zero_division_only (s : F) (e : exn) :
  In s sizes -> try s = Raise e ->
  e = ZeroDivisionError /\
  passes_capacity mat m cur d s /\
  (eqb (mul V (lit 1000)) (lit 0) = true \/
   (passes_both mat m cur len d mx V s /\ eqb len (lit 0) = true)).
Proof.
  intros Hs Htry. destruct (entries s Hs) as (base & vd & Hb & Hv). unfold try in Htry.
  rewrite (try_size_known _ _ _ cur len d mx V _ _ _ Hb Hv) in Htry.
  destruct (geb (mul base d) cur) eqn:Hcap; [| discriminate Htry].
  assert (Hpc : passes_capacity mat m cur d s) by (exists base; auto).
  destruct (eqb (mul V (lit 1000)) (lit 0)) eqn:HV.
  - inversion Htry. auto.
  - destruct (leb (mul (quot (mul (mul vd cur) len) (mul V (lit 1000))) (lit 100)) mx) eqn:Hdrop;
      [| discriminate Htry].
    destruct (eqb len (lit 0)) eqn:Hlen; [| discriminate Htry].
    inversion Htry. split; [reflexivity |]. split; [exact Hpc |].
    right. split; [| reflexivity]. exists base, vd. auto.
Qed.

Lemma try_divides_by_zero (s : F) :
  passes_capacity mat m cur d s ->
  In s sizes ->
  eqb (mul V (lit 1000)) (lit 0) = true \/
  (passes_both mat m cur len d mx V s /\ eqb len (lit 0) = true) ->
  try s = Raise ZeroDivisionError.
Proof.
  intros (base & Hb & Hcap) Hs Hz. destruct (entries s Hs) as (base' & vd & Hb' & Hv).
  assert (base' = base) by congruence. subst base'. unfold try.
  rewrite (try_size_known _ _ _ cur len d mx V _ _ _ Hb Hv). rewrite Hcap.
  destruct (eqb (mul V (lit 1000)) (lit 0)) eqn:HV; [reflexivity |].
  destruct Hz as [Hz | [(b & v & Hb2 & Hv2 & _ & Hdrop) Hlen]]; [discriminate Hz |].
  assert (v = vd) by congruence. subst v.
  unfold voltage_drop_percent_in in Hdrop. rewrite Hdrop, Hlen. reflexivity.
Qed.

(** In an ascending list, what stands before an element is below it, and
    what is below it stands before it. *)
Lemma ascending_before (pre : list F) (s : F) (post : list F) (s' : F) :
  ascending (pre ++ s :: post) = true -> In s' pre -> ltb s' s = true.
Proof.
  induction pre as [| a pre IH]; simpl; intros Hasc Hin; [contradiction |].
  apply andb_true_iff in Hasc. destruct Hasc as [Hhead Hrest].
  apply andb_true_iff in Hhead. destruct Hhead as [_ Hall].
  destruct Hin as [<- | Hin]; [| exact (IH Hrest Hin)].
  rewrite forallb_forall in Hall.
  assert (Hs : In s (pre ++ s :: post)) by (apply in_or_app; right; left; reflexivity).
  specialize (Hall s Hs). apply andb_true_iff in Hall. tauto.
Qed.

Lemma below_stands_before (pre : list F) (s : F) (post : list F) (s' : F) :
  ascending (pre ++ s :: post) = true ->
  In s' (pre ++ s :: post) -> ltb s' s = true -> In s' pre.
Proof.
  induction pre as [| a pre IH]; simpl; intros Hasc Hin Hlt.
  - exfalso. apply andb_true_iff in Hasc. destruct Hasc as [Hhead _].
    apply andb_true_iff in Hhead. destruct Hhead as [Hirr Hall].
    destruct Hin as [<- | Hin].
    + rewrite Hlt in Hirr. discriminate Hirr.
    + rewrite forallb_forall in Hall. specialize (Hall s' Hin).
      apply andb_true_iff in Hall. destruct Hall as [_ Hno].
      rewrite Hlt in Hno. discriminate Hno.
  - apply andb_true_iff in Hasc. destruct Hasc as [_ Hrest].
    destruct Hin as [E | Hin]; [left; exact E | right; exact (IH Hrest Hin Hlt)].
Qed.

(** The first size to pass both tests is returned. *)
Lemma scan_returns_first_to_pass (s : F) :
  ascending sizes = true ->
  eqb (mul V (lit 1000)) (lit 0) = false ->
  eqb len (lit 0) = false ->
  In s sizes ->
  passes_both mat m cur len d mx V s ->
  (forall s', In s' sizes -> ltb s' s = true -> ~ passes_both mat m cur len d mx V s') ->
  exists base vd,
    base_capacity_at (current_ratings mat) m s = Some base /\
    lookup eqb (voltage_drop_factors mat) s = Some vd /\
    scan sizes = Return (selected s base vd cur len d V).
Proof.
  intros Hasc HV Hlen Hs (base & vd & Hb & Hv & Hcap & Hdrop) Hmin.
  exists base, vd. split; [exact Hb |]. split; [exact Hv |].
  destruct (in_split _ _ Hs) as (pre & post & Hsplit).
  unfold scan. rewrite Hsplit.
  rewrite (scan_sizes_stops _ _ _ _ _ _ _ _ pre s post
             (Return (Some (selected s base vd cur len d V)))).
  - reflexivity.
  - rewrite Forall_forall. intros x Hx.
    assert (Hin : In x sizes) by (rewrite Hsplit; apply in_or_app; left; exact Hx).
    apply try_passes_over; [exact Hin | exact HV |].
    apply Hmin; [exact Hin |]. rewrite Hsplit in Hasc.
    exact (ascending_before pre s post x Hasc Hx).
  - apply try_returns_the_selection; assumption.
Qed.

(** When no size passes both tests the loop runs out. *)
Lemma scan_runs_out :
  eqb (mul V (lit 1000)) (lit 0) = false ->
  (forall s, In s sizes -> ~ passes_both mat m cur len d mx V s) ->
  scan sizes = Return (no_suitable_cable mx).
Proof.
  intros HV Hnone. apply scan_sizes_exhausted. rewrite Forall_forall. intros s Hs.
  apply try_passes_over; auto.
Qed.

(** When no size passes the capacity test, no division is made. *)
Lemma scan_without_capacity :
  (forall s, In s sizes -> ~ passes_capacity mat m cur d s) ->
  scan sizes = Return (no_suitable_cable mx).
Proof.
  intros Hnone. apply scan_sizes_exhausted. rewrite Forall_forall. intros s Hs.
  destruct (entries s Hs) as (base & vd & Hb & Hv).
  rewrite (try_size_known _ _ _ cur len d mx V _ _ _ Hb Hv).
  destruct (geb (mul base d) cur) eqn:Hcap; [| reflexivity].
  exfalso. apply (Hnone s Hs). exists base. auto.
Qed.

(** The three ways the loop can end. *)
Lemma scan_ends (res : result selection) :
  scan sizes = res ->
  (res = Return (no_suitable_cable mx) /\
   forall s, In s sizes -> ~ passes_both mat m cur len d mx V s) \/
  (exists pre s post base vd,
     sizes = pre ++ s :: post /\
     (forall s', In s' pre -> ~ passes_both mat m cur len d mx V s') /\
     base_capacity_at (current_ratings mat) m s = Some base /\
     lookup eqb (voltage_drop_factors mat) s = Some vd /\
     geb (mul base d) cur = true /\
     leb (voltage_drop_percent_in vd cur len V) mx = true /\
     eqb (mul V (lit 1000)) (lit 0) = false /\
     eqb len (lit 0) = false /\
     res = Return (selected s base vd cur len d V)) \/
  (exists pre s post,
     sizes = pre ++ s :: post /\
     (forall s', In s' pre -> ~ passes_both mat m cur len d mx V s') /\
     passes_capacity mat m cur d s /\
     (eqb (mul V (lit 1000)) (lit 0) = true \/
      (passes_both mat m cur len d mx V s /\ eqb len (lit 0) = true)) /\
     res = Raise ZeroDivisionError).
Proof.
  intros <-. unfold scan.
  destruct (scan_sizes_run (current_ratings mat) (voltage_drop_factors mat) m
              cur len d mx V sizes)
    as [Hall | pre t post r Hsplit Hpre Ht | pre t post e Hsplit Hpre Ht].
  - left. split; [reflexivity |]. rewrite Forall_forall in Hall.
    intros s Hs. apply passed_over_fails_a_test. apply Hall. exact Hs.
  - right. left. apply try_size_selected_inv in Ht.
    destruct Ht as (base & vd & Hb & Hv & Hcap & HV & Hdrop & Hlen & ->).
    exists pre, t, post, base, vd. rewrite Forall_forall in Hpre.
    repeat split; try assumption.
    intros s' Hs'. apply passed_over_fails_a_test. apply Hpre. exact Hs'.
  - right. right.
    assert (Hin : In t sizes) by (rewrite Hsplit; apply in_or_app; right; left; reflexivity).
    destruct (try_raises_zero_division_only t e Hin Ht) as (-> & Hpc & Hz).
    exists pre, t, post. rewrite Forall_forall in Hpre.
    repeat split; try assumption.
    intros s' Hs'. apply passed_over_fails_a_test. apply Hpre. exact Hs'.
Qed.

End AnyArithmetic.

(** ** Binary64: products that are not zero

    What the primitive operations compute is specified on [spec_float],
    the sign, mantissa and exponent of a float. A product is rounded by
    shifting its mantissa to the right; the shift is shorter than the
    mantissa when the exact product is not below the smallest subnormal,
    so the rounded product is not zero. *)

Section Rounding64.

Local Open Scope Z_scope.

Lemma digits2_pos_bounds (p : positive) :
  2 ^ (Zpos (SpecFloat.digits2_pos p) - 1) <= Zpos p < 2 ^ Zpos (SpecFloat.digits2_pos p).
Proof.
  induction p as [p IH | p IH |]; cbn [SpecFloat.digits2_pos].
  - rewrite Pos2Z.inj_succ.
    replace (Z.succ (Zpos (SpecFloat.digits2_pos p)) - 1)
      with (Zpos (SpecFloat.digits2_pos p)) by lia.
    rewrite Z.pow_succ_r by lia.
    assert (H : 2 ^ Zpos (SpecFloat.digits2_pos p) =
                2 * 2 ^ (Zpos (SpecFloat.digits2_pos p) - 1)).
    { rewrite <- Z.pow_succ_r by lia. f_equal. lia. }
    lia.
  - rewrite Pos2Z.inj_succ.
    replace (Z.succ (Zpos (SpecFloat.digits2_pos p)) - 1)
      with (Zpos (SpecFloat.digits2_pos p)) by lia.
    rewrite Z.pow_succ_r by lia.
    assert (H : 2 ^ Zpos (SpecFloat.digits2_pos p) =
                2 * 2 ^ (Zpos (SpecFloat.digits2_pos p) - 1)).
    { rewrite <- Z.pow_succ_r by lia. f_equal. lia. }
    lia.
  - simpl. lia.
Qed.

(** A product has at least as many digits as its factor. *)
Lemma digits2_pos_mul (p q : positive) :
  Zpos (SpecFloat.digits2_pos p) <= Zpos (SpecFloat.digits2_pos (p * q)).
Proof.
  pose proof (digits2_pos_bounds p) as [Hlo _].
  pose proof (digits2_pos_bounds (p * q)) as [_ Hhi].
  assert (Hle : Zpos p <= Zpos (p * q)) by nia.
  assert (Hlt : 2 ^ (Zpos (SpecFloat.digits2_pos p) - 1) <
                2 ^ Zpos (SpecFloat.digits2_pos (p * q))) by lia.
  apply Z.pow_lt_mono_r_iff in Hlt; lia.
Qed.

Lemma shr_1_m (mrs : SpecFloat.shr_record) :
  0 <= SpecFloat.shr_m mrs ->
  SpecFloat.shr_m (SpecFloat.shr_1 mrs) = SpecFloat.shr_m mrs / 2.
Proof.
  destruct mrs as [m r s]. simpl. intros Hm.
  destruct m as [| p | p]; [reflexivity | | lia].
  destruct p as [p | p |]; simpl.
  - apply Z.div_unique with (r := 1); lia.
  - apply Z.div_unique with (r := 0); lia.
  - reflexivity.
Qed.

Lemma iter_shr_1_m (n : positive) (mrs : SpecFloat.shr_record) :
  0 <= SpecFloat.shr_m mrs ->
  SpecFloat.shr_m (SpecFloat.iter_pos SpecFloat.shr_1 n mrs) =
    SpecFloat.shr_m mrs / 2 ^ Zpos n.
Proof.
  revert mrs. induction n as [n IH | n IH |]; intros mrs Hm; cbn [SpecFloat.iter_pos].
  - assert (Hp : 0 < 2 ^ Zpos n) by (apply Z.pow_pos_nonneg; lia).
    assert (H1 : 0 <= SpecFloat.shr_m (SpecFloat.shr_1 mrs))
      by (rewrite shr_1_m by exact Hm; apply Z.div_pos; lia).
    assert (H2 : 0 <= SpecFloat.shr_m (SpecFloat.iter_pos SpecFloat.shr_1 n (SpecFloat.shr_1 mrs)))
      by (rewrite IH by exact H1; apply Z.div_pos; lia).
    rewrite IH by exact H2. rewrite IH by exact H1. rewrite shr_1_m by exact Hm.
    rewrite !Z.div_div by lia.
    f_equal. assert (E : Zpos n~1 = 1 + Zpos n + Zpos n) by lia.
    rewrite E, !Z.pow_add_r by lia. change (2 ^ 1) with 2. lia.
  - assert (Hp : 0 < 2 ^ Zpos n) by (apply Z.pow_pos_nonneg; lia).
    assert (H1 : 0 <= SpecFloat.shr_m (SpecFloat.iter_pos SpecFloat.shr_1 n mrs))
      by (rewrite IH by exact Hm; apply Z.div_pos; lia).
    rewrite IH by exact H1. rewrite IH by exact Hm.
    rewrite Z.div_div by lia.
    f_equal. assert (E : Zpos n~0 = Zpos n + Zpos n) by lia.
    rewrite E, Z.pow_add_r by lia. reflexivity.
  - rewrite shr_1_m by exact Hm. reflexivity.
Qed.

(** A shift by fewer places than the mantissa has digits leaves a
    positive mantissa, at an exponent not below the smallest. *)
Lemma shr_fexp_positive (prec emax : Z) (p : positive) (e : Z) (l : SpecFloat.location) :
  SpecFloat.emin prec emax - e <= Zpos (SpecFloat.digits2_pos p) - 1 ->
  0 < prec ->
  let '(mrs, e') := SpecFloat.shr_fexp prec emax (Zpos p) e l in
  0 < SpecFloat.shr_m mrs /\ SpecFloat.emin prec emax <= e'.
Proof.
  intros He Hprec. unfold SpecFloat.shr_fexp, SpecFloat.shr. cbn [SpecFloat.Zdigits2].
  set (d := Zpos (SpecFloat.digits2_pos p)) in *.
  assert (Hrec : SpecFloat.shr_m (SpecFloat.shr_record_of_loc (Zpos p) l) = Zpos p)
    by (destruct l as [| []]; reflexivity).
  unfold SpecFloat.fexp.
  destruct (Z.max (d + e - prec) (SpecFloat.emin prec emax) - e) as [| n | n] eqn:Hn.
  - rewrite Hrec. lia.
  - rewrite iter_shr_1_m by (rewrite Hrec; lia). rewrite Hrec.
    split; [| lia].
    apply Z.div_str_pos. split; [apply Z.pow_pos_nonneg; lia |].
    pose proof (digits2_pos_bounds p) as [Hlo _]. fold d in Hlo.
    apply Z.le_trans with (2 ^ (d - 1)); [| exact Hlo].
    apply Z.pow_le_mono_r; lia.
  - rewrite Hrec. lia.
Qed.

Lemma round_nearest_even_ge (m : Z) (l : SpecFloat.location) :
  m <= SpecFloat.round_nearest_even m l.
Proof.
  unfold SpecFloat.round_nearest_even. destruct l as [| []]; try lia.
  destruct (Z.even m); lia.
Qed.

(** Rounding such a mantissa gives a finite float or an infinity. *)
Lemma binary_round_aux_not_zero (prec emax : Z) (sx : bool) (p : positive) (e : Z)
    (l : SpecFloat.location) :
  0 < prec ->
  SpecFloat.emin prec emax - e <= Zpos (SpecFloat.digits2_pos p) - 1 ->
  match SpecFloat.binary_round_aux prec emax sx (Zpos p) e l with
  | SpecFloat.S754_finite _ _ _ | SpecFloat.S754_infinity _ => True
  | _ => False
  end.
Proof.
  intros Hprec He. unfold SpecFloat.binary_round_aux.
  pose proof (shr_fexp_positive prec emax p e l He Hprec) as H1.
  destruct (SpecFloat.shr_fexp prec emax (Zpos p) e l) as [mrs' e'].
  destruct H1 as [Hm' He'].
  pose proof (round_nearest_even_ge (SpecFloat.shr_m mrs') (SpecFloat.loc_of_shr_record mrs'))
    as Hr.
  destruct (SpecFloat.round_nearest_even (SpecFloat.shr_m mrs')
              (SpecFloat.loc_of_shr_record mrs')) as [| q | q]; try lia.
  assert (He2 : SpecFloat.emin prec emax - e' <= Zpos (SpecFloat.digits2_pos q) - 1) by lia.
  pose proof (shr_fexp_positive prec emax q e' SpecFloat.loc_Exact He2 Hprec) as H2.
  destruct (SpecFloat.shr_fexp prec emax (Zpos q) e' SpecFloat.loc_Exact) as [mrs'' e''].
  destruct H2 as [Hm'' _].
  destruct (SpecFloat.shr_m mrs'') as [| q' | q']; try lia.
  destruct (e'' <=? emax - prec); exact I.
Qed.

(** The exponent of a float is not below the smallest, and a float with
    a larger exponent has a full mantissa. *)
Lemma canonical_exponent (m : positive) (e : Z) :
  SpecFloat.canonical_mantissa FloatOps.prec FloatOps.emax m e = true ->
  -1074 <= e /\ (-1074 < e -> Zpos (SpecFloat.digits2_pos m) = 53).
Proof.
  unfold SpecFloat.canonical_mantissa, SpecFloat.fexp, SpecFloat.emin.
  change FloatOps.prec with 53. change FloatOps.emax with 1024.
  intros H. apply Z.eqb_eq in H. lia.
Qed.

End Rounding64.

(** ** Binary64: comparisons *)

(** A float above zero does not compare equal to zero. *)
Lemma positive_float_is_nonzero (x : PrimFloat.float) :
  ltb (lit 0) x = true -> eqb x (lit 0) = false.
Proof.
  change (PrimFloat.ltb (float_of_literal 0) x = true ->
          PrimFloat.eqb x (float_of_literal 0) = false).
  rewrite FloatAxioms.ltb_spec, FloatAxioms.eqb_spec.
  replace (FloatOps.Prim2SF (float_of_literal 0)) with (SpecFloat.S754_zero false)
    by (vm_compute; reflexivity).
  destruct (FloatOps.Prim2SF x) as [s | s | | s m e]; try destruct s; simpl; intros H;
    try discriminate H; reflexivity.
Qed.

(** [==] with a float that is neither zero nor NaN is equality. *)
Lemma float_eqb_eq (x c : PrimFloat.float) (s : bool) (m : positive) (e : Z) :
  FloatOps.Prim2SF c = SpecFloat.S754_finite s m e -> PrimFloat.eqb x c = true -> x = c.
Proof.
  intros Hc H. rewrite FloatAxioms.eqb_spec, Hc in H.
  apply FloatAxioms.Prim2SF_inj. rewrite Hc.
  unfold SpecFloat.SFeqb, SpecFloat.SFcompare in H.
  destruct (FloatOps.Prim2SF x) as [s' | s' | | s' m' e'];
    try destruct s'; try destruct s; try discriminate H.
  - destruct (Z.compare e' e) eqn:He; try discriminate H.
    destruct (Pos.compare_cont Eq m' m) eqn:Hm; try discriminate H.
    apply Z.compare_eq in He. apply Pos.compare_eq in Hm. subst. reflexivity.
  - destruct (Z.compare e' e) eqn:He; try discriminate H.
    destruct (Pos.compare_cont Eq m' m) eqn:Hm; try discriminate H.
    apply Z.compare_eq in He. apply Pos.compare_eq in Hm. subst. reflexivity.
Qed.

(** The product of a float that is at least 1 and a float above zero is
    not zero: it does not underflow. *)
Lemma float_mul_not_zero (x y : PrimFloat.float) :
  leb (lit 1) x = true -> ltb (lit 0) y = true -> eqb (mul x y) (lit 0) = false.
Proof.
  change (PrimFloat.leb (float_of_literal 1) x = true ->
          PrimFloat.ltb (float_of_literal 0) y = true ->
          PrimFloat.eqb (PrimFloat.mul x y) (float_of_literal 0) = false).
  rewrite FloatAxioms.leb_spec, FloatAxioms.ltb_spec, FloatAxioms.eqb_spec,
    FloatAxioms.mul_spec.
  replace (FloatOps.Prim2SF (float_of_literal 0)) with (SpecFloat.S754_zero false)
    by (vm_compute; reflexivity).
  replace (FloatOps.Prim2SF (float_of_literal 1))
    with (SpecFloat.S754_finite false 4503599627370496 (-52))
    by (vm_compute; reflexivity).
  pose proof (FloatAxioms.Prim2SF_valid x) as Vx.
  pose proof (FloatAxioms.Prim2SF_valid y) as Vy.
  unfold FloatAxioms.SF64mul.
  destruct (FloatOps.Prim2SF x) as [sx | sx | | sx mx ex];
    destruct (FloatOps.Prim2SF y) as [sy | sy | | sy my ey];
    try destruct sx; try destruct sy; simpl; intros Hx Hy;
    try discriminate Hx; try discriminate Hy; try reflexivity.
  unfold SpecFloat.SFleb, SpecFloat.SFcompare in Hx.
  simpl in Vx, Vy. unfold SpecFloat.bounded in Vx, Vy.
  apply andb_true_iff in Vx. destruct Vx as [Cx _].
  apply andb_true_iff in Vy. destruct Vy as [Cy _].
  apply canonical_exponent in Cx. apply canonical_exponent in Cy.
  assert (Hdig : (1 <= Zpos (SpecFloat.digits2_pos mx) + ex)%Z).
  { destruct Cx as [_ Cx].
    destruct (Z.compare (-52) ex) eqn:He; try discriminate Hx.
    - apply Z.compare_eq in He. rewrite Cx by lia. lia.
    - change (-52 < ex)%Z in He. rewrite Cx by lia. lia. }
  destruct Cy as [Cy _].
  pose proof (digits2_pos_mul mx my) as Hmul.
  pose proof (binary_round_aux_not_zero FloatOps.prec FloatOps.emax false (mx * my)
                (ex + ey) SpecFloat.loc_Exact) as Hround.
  change (Z.pos mx * Z.pos my)%Z with (Zpos (mx * my)) in *.
  destruct (SpecFloat.binary_round_aux FloatOps.prec FloatOps.emax false
              (Zpos (mx * my)) (ex + ey) SpecFloat.loc_Exact) as [s | s | | s m e].
  - exfalso. apply Hround; [reflexivity |].
    unfold SpecFloat.emin. change FloatOps.prec with 53%Z. change FloatOps.emax with 1024%Z.
    lia.
  - destruct s; reflexivity.
  - exfalso. apply Hround; [reflexivity |].
    unfold SpecFloat.emin. change FloatOps.prec with 53%Z. change FloatOps.emax with 1024%Z.
    lia.
  - destruct s; reflexivity.
Qed.

(** The supply voltage that passes the check of [calculate_current] is
    the float 230.0 or the float 415.0. *)
Lemma supply_voltage_cases (V : PrimFloat.float) :
  num_in V [lit 230; lit 415] = true -> V = lit 230 \/ V = lit 415.
Proof.
  unfold num_in. cbn [existsb]. rewrite orb_false_r. intros H.
  apply orb_true_iff in H. destruct H as [H | H]; [left | right].
  - apply (float_eqb_eq V (lit 230) false 8092405580431360 (-45)); [| exact H].
    vm_compute. reflexivity.
  - apply (float_eqb_eq V (lit 415) false 7300757208432640 (-44)); [| exact H].
    vm_compute. reflexivity.
Qed.

(** On such a voltage neither divisor of the program is zero. *)
Lemma supply_voltage_scaled_nonzero (V : PrimFloat.float) :
  num_in V [lit 230; lit 415] = true -> eqb (mul V (lit 1000)) (lit 0) = false.
Proof.
  intros H. destruct (supply_voltage_cases V H) as [-> | ->]; vm_compute; reflexivity.
Qed.

Lemma power_divisor_not_zero (V pf : PrimFloat.float) :
  num_in V [lit 230; lit 415] = true ->
  ltb (lit 0) pf = true ->
  eqb (mul V pf) (lit 0) = false /\
  eqb (mul (mul (math_sqrt (lit 3)) V) pf) (lit 0) = false.
Proof.
  intros HV Hpf. split; apply float_mul_not_zero; try exact Hpf;
    destruct (supply_voltage_cases V HV) as [-> | ->]; vm_compute; reflexivity.
Qed.

(** ** The tables in binary64 *)

Lemma keys_current_ratings64 (mat : material) :
  keys (current_ratings (F:=PrimFloat.float) mat) = catalog64.
Proof. destruct mat; reflexivity. Qed.

Lemma sorted_catalog64 : sorted catalog64 = catalog64.
Proof. vm_compute. reflexivity. Qed.

Lemma catalog64_ascending : ascending catalog64 = true.
Proof. vm_compute. reflexivity. Qed.

(** Every catalog size has a rating under each method and a factor. *)
Lemma catalog64_entries (mat : material) (m : string) :
  In m method_keys ->
  forall s, In s catalog64 ->
    exists base vd,
      base_capacity_at (current_ratings mat) m s = Some base /\
      lookup eqb (voltage_drop_factors mat) s = Some vd.
Proof.
  intros Hm s Hs.
  assert (H : forallb (fun s =>
                match base_capacity_at (current_ratings mat) m s,
                      lookup eqb (voltage_drop_factors mat) s with
                | Some _, Some _ => true
                | _, _ => false
                end) catalog64 = true).
  { simpl in Hm. destruct Hm as [<- | [<- | [<- | []]]]; destruct mat; vm_compute; reflexivity. }
  rewrite forallb_forall in H. specialize (H s Hs).
  destruct (base_capacity_at (current_ratings mat) m s) as [base |]; [| discriminate H].
  destruct (lookup eqb (voltage_drop_factors mat) s) as [vd |]; [| discriminate H].
  exists base, vd. auto.
Qed.

(** [select_cable] on a recognised material and method is the loop over
    the catalog. *)
Lemma select_cable_scan64 (cur : PrimFloat.float) ct im (len d mx V : PrimFloat.float) mat :
  material_of ct = Some mat -> In (lower im) method_keys ->
  select_cable cur ct im len d mx V =
    scan_sizes (current_ratings mat) (voltage_drop_factors mat) (lower im)
      cur len d mx V catalog64.
Proof.
  intros Hmat Hm. rewrite select_cable_eq, Hmat.
  apply str_in_In in Hm. rewrite Hm.
  rewrite keys_current_ratings64, sorted_catalog64. reflexivity.
Qed.

(** ** [select_cable] in binary64

    The statements of this part are about the floats the code computes:
    the two tests are [passes_capacity] and [passes_both], evaluated with
    the products and the quotient of binary64. *)

(** How a call on a recognised material and method ends. *)
Lemma select_cable_ends (cur : PrimFloat.float) (ct im : string)
    (len d mx V : PrimFloat.float) (mat : material) (res : result selection) :
  material_of ct = Some mat ->
  In (lower im) method_keys ->
  select_cable cur ct im len d mx V = res ->
  (res = Return (no_suitable_cable mx) /\
   forall s, In s catalog64 -> ~ passes_both mat (lower im) cur len d mx V s) \/
  (exists s base vd,
     In s catalog64 /\
     (forall s', In s' catalog64 -> ltb s' s = true ->
                 ~ passes_both mat (lower im) cur len d mx V s') /\
     base_capacity_at (current_ratings mat) (lower im) s = Some base /\
     lookup eqb (voltage_drop_factors mat) s = Some vd /\
     geb (mul base d) cur = true /\
     leb (voltage_drop_percent_in vd cur len V) mx = true /\
     eqb (mul V (lit 1000)) (lit 0) = false /\
     eqb len (lit 0) = false /\
     res = Return (selected s base vd cur len d V)) \/
  (exists s,
     In s catalog64 /\
     (forall s', In s' catalog64 -> ltb s' s = true ->
                 ~ passes_both mat (lower im) cur len d mx V s') /\
     passes_capacity mat (lower im) cur d s /\
     (eqb (mul V (lit 1000)) (lit 0) = true \/
      (passes_both mat (lower im) cur len d mx V s /\ eqb len (lit 0) = true)) /\
     res = Raise ZeroDivisionError).
Proof.
  intros Hmat Hm Hres. rewrite (select_cable_scan64 _ _ _ _ _ _ _ _ Hmat Hm) in Hres.
  destruct (scan_ends mat (lower im) catalog64 (catalog64_entries mat (lower im) Hm)
              cur len d mx V res Hres)
    as [[-> Hnone]
       | [(pre & s & post & base & vd & Hsplit & Hpre & Hb & Hv & Hcap & Hdrop & HV & Hlen & ->)
         | (pre & s & post & Hsplit & Hpre & Hpc & Hz & ->)]].
  - left. split; [reflexivity | exact Hnone].
  - right. left. exists s, base, vd.
    pose proof catalog64_ascending as Hasc. rewrite Hsplit in Hasc.
    split; [rewrite Hsplit; apply in_or_app; right; left; reflexivity |].
    split; [| repeat split; assumption].
    intros s' Hs' Hlt. apply Hpre. rewrite Hsplit in Hs'.
    exact (below_stands_before pre s post s' Hasc Hs' Hlt).
  - right. right. exists s.
    pose proof catalog64_ascending as Hasc. rewrite Hsplit in Hasc.
    split; [rewrite Hsplit; apply in_or_app; right; left; reflexivity |].
    split; [| repeat split; assumption].
    intros s' Hs' Hlt. apply Hpre. rewrite Hsplit in Hs'.
    exact (below_stands_before pre s post s' Hasc Hs' Hlt).
Qed.

(** A normal return or a [ZeroDivisionError] tells that the material and
    the method were recognised. *)
Lemma select_cable_recognised (cur : PrimFloat.float) (ct im : string)
    (len d mx V : PrimFloat.float) (res : result selection) :
  select_cable cur ct im len d mx V = res ->
  (forall msg, res <> Raise (ValueError msg)) ->
  exists mat, material_of ct = Some mat /\ In (lower im) method_keys.
Proof.
  intros H Hres. rewrite select_cable_eq in H.
  destruct (material_of ct) as [mat |]; [| exfalso; eapply Hres; symmetry; exact H].
  destruct (str_in (lower im) method_keys) eqn:Hm;
    [| exfalso; eapply Hres; symmetry; exact H].
  exists mat. split; [reflexivity | apply str_in_In; exact Hm].
Qed.

(** Settling the two tests at the sizes of the catalog, one by one. *)
Ltac in_catalog64 := vm_compute; repeat (first [left; reflexivity | right]).

Ltac fails_both H :=
  let base := fresh "base" in
  let vd := fresh "vd" in
  let Hb := fresh "Hb" in
  let Hv := fresh "Hv" in
  let Hcap := fresh "Hcap" in
  let Hdrop := fresh "Hdrop" in
  destruct H as (base & vd & Hb & Hv & Hcap & Hdrop);
  vm_compute in Hb; vm_compute in Hv;
  injection Hb as <-; injection Hv as <-;
  vm_compute in Hcap; vm_compute in Hdrop;
  first [discriminate Hcap | discriminate Hdrop].

Ltac fails_capacity H :=
  let base := fresh "base" in
  let Hb := fresh "Hb" in
  let Hcap := fresh "Hcap" in
  destruct H as (base & Hb & Hcap);
  vm_compute in Hb; injection Hb as <-;
  vm_compute in Hcap; discriminate Hcap.

Ltac each_size Hs :=
  vm_compute in Hs; repeat (destruct Hs as [<- | Hs]); [.. | contradiction].

(** C1. On a recognised material and installation method, with a route
    length and a scaled supply voltage ([voltage * 1000]) that do not
    compare equal to zero (so on every valid request: a positive length,
    230 or 415 V), [select_cable] returns [Selected] with the first size
    [s] of the ascending catalog at which both tests of the loop pass as
    binary64 evaluates them: [base * d >= cur], equality included, and
    [vd * cur * len / (V * 1000) * 100 <= mx]. A size is passed over
    whichever test it fails, and the scan goes on to the next. (A
    positive length meets the first condition by
    [positive_float_is_nonzero], 230 and 415 V the second by
    [supply_voltage_scaled_nonzero].) *)
Theorem select_cable_first_to_pass
    (cur : PrimFloat.float) (ct im : string) (len d mx V : PrimFloat.float)
    (mat : material) (s : PrimFloat.float) :
  material_of ct = Some mat ->
  In (lower im) method_keys ->
  eqb len (lit 0) = false ->
  eqb (mul V (lit 1000)) (lit 0) = false ->
  In s catalog64 ->
  passes_both mat (lower im) cur len d mx V s ->
  (forall s', In s' catalog64 -> ltb s' s = true ->
              ~ passes_both mat (lower im) cur len d mx V s') ->
  exists base vd,
    base_capacity_at (current_ratings mat) (lower im) s = Some base /\
    lookup eqb (voltage_drop_factors mat) s = Some vd /\
    select_cable cur ct im len d mx V = Return (selected s base vd cur len d V).
Proof.
  intros Hmat Hm Hlen HV Hs Hpass Hmin.
  rewrite (select_cable_scan64 _ _ _ _ _ _ _ _ Hmat Hm).
  exact (scan_returns_first_to_pass mat (lower im) catalog64
           (catalog64_entries mat (lower im) Hm) cur len d mx V s
           catalog64_ascending HV Hlen Hs Hpass Hmin).
Qed.

(** 83 A over 140 m of copper in the ground, at most 3.5 % on 415 V:
    35 sq mm carries the current, but its voltage drop comes out as
    3.5000000000000004 %, so 50 sq mm is the first size to pass. *)
Lemma select_cable_first_to_pass_witness :
  exists base vd,
    base_capacity_at (current_ratings Copper) (lower "ground") (lit 50) = Some base /\
    lookup eqb (voltage_drop_factors Copper) (lit 50) = Some vd /\
    select_cable (lit 83) "Cu" "ground" (lit 140) (lit 1) (lit 3.5) (lit 415) =
      Return (selected (lit 50) base vd (lit 83) (lit 140) (lit 1) (lit 415)).
Proof.
  apply (select_cable_first_to_pass (lit 83) "Cu" "ground" (lit 140) (lit 1) (lit 3.5)
           (lit 415) Copper (lit 50)).
  - reflexivity.
  - simpl. auto.
  - vm_compute. reflexivity.
  - vm_compute. reflexivity.
  - in_catalog64.
  - exists (lit 163), (lit 0.89). repeat split; vm_compute; reflexivity.
  - intros s' Hs' Hlt Hpass. each_size Hs';
      first [vm_compute in Hlt; discriminate Hlt | fails_both Hpass].
Defined.

(** C2. On a recognised material and method, with a scaled supply
    voltage that does not compare equal to zero, when no catalog size
    passes both tests of the loop [select_cable] returns normally: the
    record has no size, no figure, and a status that carries the limit
    that was attempted. *)
Theorem select_cable_none_passes
    (cur : PrimFloat.float) (ct im : string) (len d mx V : PrimFloat.float)
    (mat : material) :
  material_of ct = Some mat ->
  In (lower im) method_keys ->
  eqb (mul V (lit 1000)) (lit 0) = false ->
  (forall s, In s catalog64 -> ~ passes_both mat (lower im) cur len d mx V s) ->
  exists r,
    select_cable cur ct im len d mx V = Return r /\
    size r = None /\
    actual_capacity r = None /\ voltage_drop r = None /\ voltage_drop_mv r = None /\
    status r = [Text "No suitable cable found. Max voltage drop of ";
                Interp mx;
                Text "% exceeded."].
Proof.
  intros Hmat Hm HV Hnone. exists (no_suitable_cable mx).
  rewrite (select_cable_scan64 _ _ _ _ _ _ _ _ Hmat Hm).
  rewrite (scan_runs_out mat (lower im) catalog64 (catalog64_entries mat (lower im) Hm)
             cur len d mx V HV Hnone).
  repeat split.
Qed.

(** 1000 A is more than any copper cable in the ground carries. *)
Lemma select_cable_none_passes_witness :
  exists r,
    select_cable (lit 1000) "Cu" "ground" (lit 50) (lit 1) (lit 3) (lit 415) = Return r /\
    size r = None /\
    actual_capacity r = None /\ voltage_drop r = None /\ voltage_drop_mv r = None /\
    status r = [Text "No suitable cable found. Max voltage drop of ";
                Interp (lit 3);
                Text "% exceeded."].
Proof.
  apply (select_cable_none_passes (lit 1000) "Cu" "ground" (lit 50) (lit 1) (lit 3)
           (lit 415) Copper).
  - reflexivity.
  - simpl. auto.
  - vm_compute. reflexivity.
  - intros s Hs Hpass. each_size Hs; fails_both Hpass.
Defined.

(** The tests are those of the floats: at 381.5 A with a derating factor
    of 0.7 the product [545 * 0.7] is rounded to 381.5, and 400 sq mm is
    selected. *)
Example binary64_rounded_capacity_selects :
  select_cable (F:=PrimFloat.float) (lit 381.5) "Cu" "ground" (lit 10) (lit 0.7) (lit 3)
      (lit 415) =
    Return {| size := Some (lit 400);
              actual_capacity := Some (lit 381.5);
              voltage_drop := Some (lit 0.1);
              voltage_drop_mv := Some (lit 41.965);
              status := [Text "Selected"] |}.
Proof. vm_compute. reflexivity. Qed.

(** C8 (as the code has it). When [select_cable] returns a [Selected]
    record, the size it names is a catalog size at which both tests of
    the loop passed on the figures the loop computed, before rounding:
    [base * d >= cur] and [vd * cur * len / (V * 1000) * 100 <= mx], as
    binary64 evaluates them. The record carries those figures rounded,
    capacity and percentage to 2 places and the per-metre figure to 3;
    of the rounded figures the two inequalities are not claimed. *)
Theorem selected_record_figures
    (cur : PrimFloat.float) (ct im : string) (len d mx V : PrimFloat.float)
    (r : selection) :
  select_cable cur ct im len d mx V = Return r ->
  status r = [Text "Selected"] ->
  exists mat s base vd,
    material_of ct = Some mat /\
    In s catalog64 /\
    size r = Some s /\
    base_capacity_at (current_ratings mat) (lower im) s = Some base /\
    lookup eqb (voltage_drop_factors mat) s = Some vd /\
    geb (mul base d) cur = true /\
    leb (voltage_drop_percent_in vd cur len V) mx = true /\
    actual_capacity r = Some (round (mul base d) 2) /\
    voltage_drop r = Some (round (voltage_drop_percent_in vd cur len V) 2) /\
    voltage_drop_mv r = Some (round (quot (mul (mul vd cur) len) len) 3).
Proof.
  intros H Hstatus.
  destruct (select_cable_recognised _ _ _ _ _ _ _ _ H) as (mat & Hmat & Hm);
    [intros msg E; discriminate E |].
  destruct (select_cable_ends _ _ _ _ _ _ _ mat _ Hmat Hm H)
    as [[E _]
       | [(s & base & vd & Hs & _ & Hb & Hv & Hcap & Hdrop & _ & _ & E)
         | (s & _ & _ & _ & _ & E)]].
  - inversion E; subst r. discriminate Hstatus.
  - inversion E; subst r. exists mat, s, base, vd. repeat split; assumption.
  - discriminate E.
Qed.

(** 16.982 A with a derating factor of 0.999: 1.5 sq mm passes both
    tests, and the record says 16.98 A. *)
Lemma selected_record_figures_witness :
  exists mat s base vd,
    material_of "Cu" = Some mat /\
    In s catalog64 /\
    Some (lit 1.5) = Some s /\
    base_capacity_at (current_ratings mat) (lower "ground") s = Some base /\
    lookup eqb (voltage_drop_factors mat) s = Some vd /\
    geb (mul base (lit 0.999)) (lit 16.982) = true /\
    leb (voltage_drop_percent_in vd (lit 16.982) (lit 10) (lit 415)) (lit 3) = true /\
    Some (lit 16.98) = Some (round (mul base (lit 0.999)) 2) /\
    Some (lit 1.21) =
      Some (round (voltage_drop_percent_in vd (lit 16.982) (lit 10) (lit 415)) 2) /\
    Some (lit 500.969) =
      Some (round (quot (mul (mul vd (lit 16.982)) (lit 10)) (lit 10)) 3).
Proof.
  apply (selected_record_figures (lit 16.982) "Cu" "ground" (lit 10) (lit 0.999) (lit 3)
           (lit 415)
           {| size := Some (lit 1.5);
              actual_capacity := Some (lit 16.98);
              voltage_drop := Some (lit 1.21);
              voltage_drop_mv := Some (lit 500.969);
              status := [Text "Selected"] |}).
  - vm_compute. reflexivity.
  - reflexivity.
Defined.

(** The figures of the record are the code's own roundings: a derating
    factor computed as [0.85 * 0.9] gives a capacity of 11.47 A at
    1.5 sq mm in a pipe or duct. *)
Example binary64_product_of_factors :
  select_cable (F:=PrimFloat.float) (lit 10) "Cu" "pipe_duct" (lit 10)
      (mul (lit 0.85) (lit 0.9)) (lit 3) (lit 415) =
    Return {| size := Some (lit 1.5);
              actual_capacity := Some (lit 11.47);
              voltage_drop := Some (lit 0.71);
              voltage_drop_mv := Some (lit 295.0);
              status := [Text "Selected"] |}.
Proof. vm_compute. reflexivity. Qed.

(** ** The outcomes of [select_cable], in binary64 *)

(** On a recognised material and method, with a length and a scaled
    voltage that do not compare equal to zero, [select_cable] raises
    nothing. It returns the [NotFound] record, and then no catalog size
    passes both tests; or it returns the [Selected] record of a catalog
    size that passes both while no smaller one does. *)
Theorem select_cable_outcome
    (cur : PrimFloat.float) (ct im : string) (len d mx V : PrimFloat.float)
    (mat : material) :
  material_of ct = Some mat ->
  In (lower im) method_keys ->
  eqb len (lit 0) = false ->
  eqb (mul V (lit 1000)) (lit 0) = false ->
  (select_cable cur ct im len d mx V = Return (no_suitable_cable mx) /\
   forall s, In s catalog64 -> ~ passes_both mat (lower im) cur len d mx V s) \/
  (exists s base vd,
     In s catalog64 /\
     base_capacity_at (current_ratings mat) (lower im) s = Some base /\
     lookup eqb (voltage_drop_factors mat) s = Some vd /\
     geb (mul base d) cur = true /\
     leb (voltage_drop_percent_in vd cur len V) mx = true /\
     (forall s', In s' catalog64 -> ltb s' s = true ->
                 ~ passes_both mat (lower im) cur len d mx V s') /\
     select_cable cur ct im len d mx V = Return (selected s base vd cur len d V)).
Proof.
  intros Hmat Hm Hlen HV.
  destruct (select_cable_ends cur ct im len d mx V mat _ Hmat Hm eq_refl)
    as [[E Hnone]
       | [(s & base & vd & Hs & Hmin & Hb & Hv & Hcap & Hdrop & _ & _ & E)
         | (s & _ & _ & _ & Hz & _)]].
  - left. split; assumption.
  - right. exists s, base, vd. repeat split; assumption.
  - exfalso. destruct Hz as [Hz | [_ Hz]]; congruence.
Qed.

Lemma select_cable_outcome_witness :
  (select_cable (lit 10) "Cu" "ground" (lit 5750) (lit 1) (lit 2.75) (lit 230) =
     Return (no_suitable_cable (lit 2.75)) /\
   forall s, In s catalog64 ->
     ~ passes_both Copper (lower "ground") (lit 10) (lit 5750) (lit 1) (lit 2.75) (lit 230) s) \/
  (exists s base vd,
     In s catalog64 /\
     base_capacity_at (current_ratings Copper) (lower "ground") s = Some base /\
     lookup eqb (voltage_drop_factors Copper) s = Some vd /\
     geb (mul base (lit 1)) (lit 10) = true /\
     leb (voltage_drop_percent_in vd (lit 10) (lit 5750) (lit 230)) (lit 2.75) = true /\
     (forall s', In s' catalog64 -> ltb s' s = true ->
        ~ passes_both Copper (lower "ground") (lit 10) (lit 5750) (lit 1) (lit 2.75)
            (lit 230) s') /\
     select_cable (lit 10) "Cu" "ground" (lit 5750) (lit 1) (lit 2.75) (lit 230) =
       Return (selected s base vd (lit 10) (lit 5750) (lit 1) (lit 230))).
Proof.
  apply (select_cable_outcome (lit 10) "Cu" "ground" (lit 5750) (lit 1) (lit 2.75)
           (lit 230) Copper).
  - reflexivity.
  - simpl. auto.
  - vm_compute. reflexivity.
  - vm_compute. reflexivity.
Defined.

(** 10 A over 5750 m at 230 V with a limit of 2.75 %: the drop at
    400 sq mm comes out above 2.75, and no cable is found. *)
Example binary64_rounded_drop_finds_none :
  select_cable (F:=PrimFloat.float) (lit 10) "Cu" "ground" (lit 5750) (lit 1) (lit 2.75)
      (lit 230) =
    Return (no_suitable_cable (lit 2.75)) /\
  leb (F:=PrimFloat.float)
    (voltage_drop_percent_in (lit 0.11) (lit 10) (lit 5750) (lit 230)) (lit 2.75) = false.
Proof. split; vm_compute; reflexivity. Qed.

(** The size of a [Selected] record is the first to pass: no smaller
    catalog size passes both tests. *)
Theorem selected_size_is_first_to_pass
    (cur : PrimFloat.float) (ct im : string) (len d mx V : PrimFloat.float)
    (r : selection) (mat : material) (s s' : PrimFloat.float) :
  select_cable cur ct im len d mx V = Return r ->
  size r = Some s ->
  material_of ct = Some mat ->
  In s' catalog64 ->
  ltb s' s = true ->
  ~ passes_both mat (lower im) cur len d mx V s'.
Proof.
  intros H Hsize Hmat Hs' Hlt.
  destruct (select_cable_recognised _ _ _ _ _ _ _ _ H) as (mat' & Hmat' & Hm);
    [intros msg E; discriminate E |].
  assert (mat' = mat) by congruence. subst mat'.
  destruct (select_cable_ends _ _ _ _ _ _ _ mat _ Hmat Hm H)
    as [[E _]
       | [(t & base & vd & _ & Hmin & _ & _ & _ & _ & _ & _ & E)
         | (t & _ & _ & _ & _ & E)]].
  - inversion E; subst r. discriminate Hsize.
  - inversion E; subst r. simpl in Hsize. inversion Hsize; subst t.
    exact (Hmin s' Hs' Hlt).
  - discriminate E.
Qed.

(** At 83 A over 140 m with a limit of 3.5 %, 50 sq mm is selected and
    35 sq mm does not pass: its drop is 3.5000000000000004 %. *)
Lemma selected_size_is_first_to_pass_witness :
  size (selected (F:=PrimFloat.float) (lit 50) (lit 163) (lit 0.89) (lit 83) (lit 140)
          (lit 1) (lit 415)) = Some (lit 50) /\
  ~ passes_both Copper (lower "ground") (lit 83) (lit 140) (lit 1) (lit 3.5) (lit 415)
      (lit 35).
Proof.
  split; [reflexivity |].
  apply (selected_size_is_first_to_pass (lit 83) "Cu" "ground" (lit 140) (lit 1) (lit 3.5)
           (lit 415)
           (selected (lit 50) (lit 163) (lit 0.89) (lit 83) (lit 140) (lit 1) (lit 415))
           Copper (lit 50) (lit 35)).
  - vm_compute. reflexivity.
  - reflexivity.
  - reflexivity.
  - in_catalog64.
  - vm_compute. reflexivity.
Defined.

(** A record without a size means that no catalog size passes both
    tests, whatever the length and the voltage. *)
Theorem not_found_means_none_passes
    (cur : PrimFloat.float) (ct im : string) (len d mx V : PrimFloat.float)
    (r : selection) (mat : material) (s : PrimFloat.float) :
  select_cable cur ct im len d mx V = Return r ->
  size r = None ->
  material_of ct = Some mat ->
  In s catalog64 ->
  ~ passes_both mat (lower im) cur len d mx V s.
Proof.
  intros H Hsize Hmat Hs.
  destruct (select_cable_recognised _ _ _ _ _ _ _ _ H) as (mat' & Hmat' & Hm);
    [intros msg E; discriminate E |].
  assert (mat' = mat) by congruence. subst mat'.
  destruct (select_cable_ends _ _ _ _ _ _ _ mat _ Hmat Hm H)
    as [[_ Hnone]
       | [(t & base & vd & _ & _ & _ & _ & _ & _ & _ & _ & E)
         | (t & _ & _ & _ & _ & E)]].
  - exact (Hnone s Hs).
  - inversion E; subst r. discriminate Hsize.
  - discriminate E.
Qed.

(** At 10 A over 5750 m with a limit of 2.75 % no cable is found, and
    400 sq mm does not pass. *)
Lemma not_found_means_none_passes_witness :
  size (no_suitable_cable (F:=PrimFloat.float) (lit 2.75)) = None /\
  ~ passes_both Copper (lower "ground") (lit 10) (lit 5750) (lit 1) (lit 2.75) (lit 230)
      (lit 400).
Proof.
  split; [reflexivity |].
  apply (not_found_means_none_passes (lit 10) "Cu" "ground" (lit 5750) (lit 1) (lit 2.75)
           (lit 230) (no_suitable_cable (lit 2.75)) Copper (lit 400)).
  - vm_compute. reflexivity.
  - reflexivity.
  - reflexivity.
  - in_catalog64.
Defined.

(** On a recognised material and method, [select_cable] raises
    [ZeroDivisionError] exactly when some catalog size passes the
    capacity test and either the scaled voltage compares equal to zero,
    or the size passes the voltage-drop test too and the route length
    compares equal to zero. *)
Theorem select_cable_ZeroDivisionError_iff
    (cur : PrimFloat.float) (ct im : string) (len d mx V : PrimFloat.float)
    (mat : material) :
  material_of ct = Some mat ->
  In (lower im) method_keys ->
  (select_cable cur ct im len d mx V = Raise ZeroDivisionError
   <-> exists s,
         In s catalog64 /\
         passes_capacity mat (lower im) cur d s /\
         (eqb (mul V (lit 1000)) (lit 0) = true \/
          (passes_both mat (lower im) cur len d mx V s /\ eqb len (lit 0) = true))).
Proof.
  intros Hmat Hm. split.
  - intros H.
    destruct (select_cable_ends _ _ _ _ _ _ _ mat _ Hmat Hm H)
      as [[E _]
         | [(s & base & vd & _ & _ & _ & _ & _ & _ & _ & _ & E)
           | (s & Hs & _ & Hpc & Hz & _)]]; try discriminate E.
    exists s. auto.
  - intros (s & Hs & Hpc & Hz).
    rewrite (select_cable_scan64 _ _ _ _ _ _ _ _ Hmat Hm).
    pose proof (try_divides_by_zero mat (lower im) catalog64
                  (catalog64_entries mat (lower im) Hm) cur len d mx V s Hpc Hs Hz) as Hraise.
    destruct (scan_sizes_run (current_ratings mat) (voltage_drop_factors mat) (lower im)
                cur len d mx V catalog64)
      as [Hall | pre t post r Hsplit Hpre Ht | pre t post e Hsplit Hpre Ht].
    + exfalso. rewrite Forall_forall in Hall. rewrite (Hall s Hs) in Hraise.
      discriminate Hraise.
    + exfalso. apply try_size_selected_inv in Ht.
      destruct Ht as (_ & _ & _ & _ & _ & HV & _ & Hlen & _).
      destruct Hz as [Hz | [_ Hz]]; congruence.
    + assert (Hin : In t catalog64)
        by (rewrite Hsplit; apply in_or_app; right; left; reflexivity).
      destruct (try_raises_zero_division_only mat (lower im) catalog64
                  (catalog64_entries mat (lower im) Hm) cur len d mx V t e Hin Ht)
        as (-> & _). reflexivity.
Qed.

(** 381.5 A with a derating factor of 0.7 over a route of length 0:
    400 sq mm passes the capacity test ([545 * 0.7] is rounded to 381.5),
    the drop is 0, and the per-metre figure divides by the length. *)
Lemma select_cable_ZeroDivisionError_iff_witness :
  select_cable (lit 381.5) "Cu" "ground" (lit 0) (lit 0.7) (lit 3) (lit 415) =
    Raise ZeroDivisionError.
Proof.
  apply (select_cable_ZeroDivisionError_iff (lit 381.5) "Cu" "ground" (lit 0) (lit 0.7)
           (lit 3) (lit 415) Copper).
  - reflexivity.
  - simpl. auto.
  - exists (lit 400). split; [in_catalog64 |].
    split; [exists (lit 545); split; vm_compute; reflexivity |].
    right. split; [| vm_compute; reflexivity].
    exists (lit 545), (lit 0.11). repeat split; vm_compute; reflexivity.
Defined.

(** When no catalog size even passes the capacity test, no voltage drop
    is computed (so that neither the length nor the voltage matters),
    and yet the record returned is the one whose status reports the
    maximum voltage drop as exceeded. *)
Theorem capacity_shortfall_reported_as_voltage_drop
    (cur : PrimFloat.float) (ct im : string) (len d mx V : PrimFloat.float)
    (mat : material) :
  material_of ct = Some mat ->
  In (lower im) method_keys ->
  (forall s, In s catalog64 -> ~ passes_capacity mat (lower im) cur d s) ->
  exists r,
    select_cable cur ct im len d mx V = Return r /\
    size r = None /\
    status r = [Text "No suitable cable found. Max voltage drop of ";
                Interp mx;
                Text "% exceeded."].
Proof.
  intros Hmat Hm Hnone. exists (no_suitable_cable mx).
  rewrite (select_cable_scan64 _ _ _ _ _ _ _ _ Hmat Hm).
  rewrite (scan_without_capacity mat (lower im) catalog64
             (catalog64_entries mat (lower im) Hm) cur len d mx V Hnone).
  repeat split.
Qed.

(** 1000 A, with a route length and a supply voltage of 0. *)
Lemma capacity_shortfall_reported_as_voltage_drop_witness :
  exists r,
    select_cable (lit 1000) "Cu" "ground" (lit 0) (lit 1) (lit 3) (lit 0) = Return r /\
    size r = None /\
    status r = [Text "No suitable cable found. Max voltage drop of ";
                Interp (lit 3);
                Text "% exceeded."].
Proof.
  apply (capacity_shortfall_reported_as_voltage_drop (lit 1000) "Cu" "ground" (lit 0)
           (lit 1) (lit 3) (lit 0) Copper).
  - reflexivity.
  - simpl. auto.
  - intros s Hs Hpc. each_size Hs; fails_capacity Hpc.
Defined.

(** ** [calculate_current] in binary64 *)

Section PowerChecked.

Context {F : Type} {num : Number F} {ms : MathSqrt F}.

(** Past the checks, a load in kW or HP is divided by the divisor of its
    supply. *)
Lemma calculate_current_power_checked (load V pf : F) :
  num_in V [lit 230; lit 415] = true ->
  ltb (lit 0) pf && leb pf (lit 1) = true ->
  calculate_current load "kW" V pf =
    (current <-
       truediv (mul load (lit 1000))
         (if eqb V (lit 230) then mul V pf else mul (mul (math_sqrt (lit 3)) V) pf) ;;
     Return (round current 2)) /\
  calculate_current load "HP" V pf =
    (current <-
       truediv (mul (mul load (lit 0.746)) (lit 1000))
         (if eqb V (lit 230) then mul V pf else mul (mul (math_sqrt (lit 3)) V) pf) ;;
     Return (round current 2)).
Proof.
  intros HV Hpf.
  split;
    [rewrite (calculate_current_checked load "kW" V pf eq_refl HV Hpf)
    | rewrite (calculate_current_checked load "HP" V pf eq_refl HV Hpf)];
    reflexivity.
Qed.

End PowerChecked.

(** C3. For a load in kW on a valid power factor, [calculate_current]
    returns [(kW * 1000) / (V * pf)] when the voltage is 230 and
    [(kW * 1000) / (sqrt(3) * V * pf)] when it is 415, rounded to 2
    decimal places by [round]; a load in HP is first multiplied by
    0.746. Every product, the quotient, the square root and the rounding
    are those of binary64, in the order the code applies them; the
    divisor is never zero. *)
Theorem calculate_current_power (load V pf : PrimFloat.float) :
  ltb (lit 0) pf && leb pf (lit 1) = true ->
  (eqb V (lit 230) = true ->
   calculate_current load "kW" V pf =
     Return (round (quot (mul load (lit 1000)) (mul V pf)) 2) /\
   calculate_current load "HP" V pf =
     Return (round (quot (mul (mul load (lit 0.746)) (lit 1000)) (mul V pf)) 2)) /\
  (eqb V (lit 415) = true ->
   calculate_current load "kW" V pf =
     Return (round (quot (mul load (lit 1000))
                         (mul (mul (math_sqrt (lit 3)) V) pf)) 2) /\
   calculate_current load "HP" V pf =
     Return (round (quot (mul (mul load (lit 0.746)) (lit 1000))
                         (mul (mul (math_sqrt (lit 3)) V) pf)) 2)).
Proof.
  intros Hpf. pose proof Hpf as Hpos. apply andb_true_iff in Hpos. destruct Hpos as [Hpos _].
  split; intros HV.
  - assert (Hin : num_in V [lit 230; lit 415] = true)
      by (unfold num_in; cbn [existsb]; rewrite HV; reflexivity).
    destruct (power_divisor_not_zero V pf Hin Hpos) as [Hd _].
    destruct (calculate_current_power_checked load V pf Hin Hpf) as [HkW HHP].
    rewrite HkW, HHP, HV. unfold truediv. rewrite Hd. split; reflexivity.
  - assert (Hin : num_in V [lit 230; lit 415] = true)
      by (unfold num_in; cbn [existsb]; rewrite HV, orb_true_r; reflexivity).
    destruct (power_divisor_not_zero V pf Hin Hpos) as [_ Hd].
    destruct (calculate_current_power_checked load V pf Hin Hpf) as [HkW HHP].
    assert (H230 : eqb V (lit 230) = false).
    { rewrite (float_eqb_eq V (lit 415) false 7300757208432640 (-44));
        [| vm_compute; reflexivity | exact HV].
      vm_compute. reflexivity. }
    rewrite HkW, HHP, H230. unfold truediv. rewrite Hd. split; reflexivity.
Qed.

(** 39.1 HP on a single phase at a power factor of 0.8: 158.53 A. *)
Lemma calculate_current_power_witness :
  calculate_current (lit 39.1) "kW" (lit 230) (lit 0.8) = Return (lit 212.5) /\
  calculate_current (lit 39.1) "HP" (lit 230) (lit 0.8) = Return (lit 158.53).
Proof.
  destruct (calculate_current_power (lit 39.1) (lit 230) (lit 0.8)) as [H230 _];
    [vm_compute; reflexivity |].
  destruct H230 as [HkW HHP]; [vm_compute; reflexivity |].
  rewrite HkW, HHP. split; vm_compute; reflexivity.
Defined.

(** The same on three phases: 68.0 A and 50.72 A. *)
Example binary64_three_phase_horsepower :
  calculate_current (F:=PrimFloat.float) (lit 39.1) "kW" (lit 415) (lit 0.8) =
    Return (lit 68.0) /\
  calculate_current (F:=PrimFloat.float) (lit 39.1) "HP" (lit 415) (lit 0.8) =
    Return (lit 50.72).
Proof. split; vm_compute; reflexivity. Qed.
